(** * Gymnasion: the response engine of [app.py]

  A shallow embedding of the Flask application's response engine
  ([GymnasionWebApp] and the [/analyze] and [/reset] handlers) and the
  proofs of its specified properties.

  Python strings are modelled as [string] over ASCII code points, Python
  integers as [Z], Python lists as [list].  The Flask [session] is a
  dictionary whose six keys may be absent: a record of [option] fields.
  The module-level [random] generator is an explicit tape of draws that is
  threaded through the calls together with the session; exceptions are a
  [result] that keeps the store as the raising code left it. *)

From Stdlib Require Import String Ascii List ZArith Lia Bool Arith PeanoNat.
Import ListNotations.

Local Open Scope string_scope.
Local Open Scope list_scope.
Local Open Scope nat_scope.

(** String concatenation, [+] on Python strings. *)
Infix "+s+" := String.append (at level 60, right associativity).

(* ===================================================================== *)
(** ** Python built-ins used by the application *)
(* ===================================================================== *)

Module Py.

(** The double quote and the newline, which the responses embed. *)
Definition dq : string := String (ascii_of_nat 34) EmptyString.
Definition nl : string := String (ascii_of_nat 10) EmptyString.

(** [c.isspace()] on ASCII: tab to carriage return, the four separators
    0x1c to 0x1f, and the blank. *)
Definition isspace (c : ascii) : bool :=
  let n := nat_of_ascii c in
  ((9 <=? n) && (n <=? 13)) || ((28 <=? n) && (n <=? 31)) || (n =? 32).

Definition isupper (c : ascii) : bool :=
  let n := nat_of_ascii c in (65 <=? n) && (n <=? 90).

Definition islower (c : ascii) : bool :=
  let n := nat_of_ascii c in (97 <=? n) && (n <=? 122).

Definition isalpha (c : ascii) : bool := isupper c || islower c.

Definition lower_char (c : ascii) : ascii :=
  if isupper c then ascii_of_nat (nat_of_ascii c + 32) else c.

Definition upper_char (c : ascii) : ascii :=
  if islower c then ascii_of_nat (nat_of_ascii c - 32) else c.

(** [s.lower()] *)
Fixpoint lower (s : string) : string :=
  match s with
  | EmptyString => EmptyString
  | String c s' => String (lower_char c) (lower s')
  end.

(** [s.title()]: a cased character is upper-cased when it follows an
    uncased one (or starts the string) and lower-cased otherwise. *)
Fixpoint title_from (prev_cased : bool) (s : string) : string :=
  match s with
  | EmptyString => EmptyString
  | String c s' =>
      String (if isalpha c
              then (if prev_cased then lower_char c else upper_char c)
              else c)
             (title_from (isalpha c) s')
  end.

Definition title (s : string) : string := title_from false s.

(** Truth value of a string, of a list and of [None]. *)
Definition str_truthy (s : string) : bool :=
  match s with EmptyString => false | _ => true end.

Definition list_truthy {A} (l : list A) : bool :=
  match l with [] => false | _ => true end.

Definition opt_truthy {A} (truthy : A -> bool) (o : option A) : bool :=
  match o with None => false | Some a => truthy a end.

(** [s.lstrip()], [s.rstrip()], [s.strip()] with no argument. *)
Fixpoint lstrip (s : string) : string :=
  match s with
  | EmptyString => EmptyString
  | String c s' => if isspace c then lstrip s' else s
  end.

Fixpoint rstrip (s : string) : string :=
  match s with
  | EmptyString => EmptyString
  | String c s' =>
      let r := rstrip s' in
      if isspace c && negb (str_truthy r) then EmptyString else String c r
  end.

Definition strip (s : string) : string := rstrip (lstrip s).

(** [s.split()] with no argument: the maximal runs of non-blank
    characters, in order; no empty token. *)
Fixpoint split (s : string) : list string :=
  match s with
  | EmptyString => []
  | String c s' =>
      if isspace c then split s'
      else match s' with
           | EmptyString => [String c EmptyString]
           | String c' _ =>
               if isspace c' then String c EmptyString :: split s'
               else match split s' with
                    | w :: ws => String c w :: ws
                    | [] => [String c EmptyString]
                    end
           end
  end.

(** [sep.join(l)] *)
Fixpoint join (sep : string) (l : list string) : string :=
  match l with
  | [] => EmptyString
  | [w] => w
  | w :: ws => w +s+ sep +s+ join sep ws
  end.

(** [s.endswith(suffix)] and the tuple form [s.endswith((a, b, ...))]. *)
Definition endswith (s suffix : string) : bool :=
  let n := String.length s in
  let m := String.length suffix in
  (m <=? n) && String.eqb (substring (n - m) m s) suffix.

Definition endswith_any (s : string) (suffixes : list string) : bool :=
  existsb (endswith s) suffixes.

(** [w in l] for a list of strings and for a list of pairs of strings. *)
Definition str_in (w : string) (l : list string) : bool :=
  existsb (String.eqb w) l.

Definition pair_eqb (p q : string * string) : bool :=
  String.eqb (fst p) (fst q) && String.eqb (snd p) (snd q).

Definition pair_in (p : string * string) (l : list (string * string)) : bool :=
  existsb (pair_eqb p) l.

(** [l[:n]] *)
Definition slice_to {A} (n : nat) (l : list A) : list A := firstn n l.

(** [l[i] = x] and the swap [l[i], l[j] = l[j], l[i]] of [random.shuffle]. *)
Fixpoint list_set {A} (i : nat) (x : A) (l : list A) : list A :=
  match l, i with
  | [], _ => []
  | _ :: l', 0 => x :: l'
  | y :: l', S i' => y :: list_set i' x l'
  end.

Definition swap {A} (i j : nat) (l : list A) : list A :=
  match nth_error l i, nth_error l j with
  | Some a, Some b => list_set j a (list_set i b l)
  | _, _ => l
  end.

End Py.

(* ===================================================================== *)
(** ** The store: the Flask session and the random generator *)
(* ===================================================================== *)

Module Gymnasion.
Import Py.

(** The six keys the application keeps in [session]; [None] is an absent
    key. *)
Record Session := mkSession {
  poem_text : option string;
  banished_words : option (list string);
  used_quotes : option (list (string * string));
  boredom : option Z;
  to_imitate : option string;
  imitation_attempts : option Z
}.

(** The session together with the draws the generator will make. *)
Record World := mkWorld {
  session : Session;
  tape : list nat
}.

Inductive exn := KeyError (key : string) | IndexError | ValueError.

Inductive result (A : Type) :=
| Ok (a : A)
| Raise (e : exn).
Arguments Ok {A} a.
Arguments Raise {A} e.

(** A call either returns or raises, and leaves a store in both cases. *)
Definition M (A : Type) : Type := World -> result A * World.

Definition ret {A} (a : A) : M A := fun w => (Ok a, w).

Definition raise {A} (e : exn) : M A := fun w => (Raise e, w).

Definition bind {A B} (m : M A) (k : A -> M B) : M B :=
  fun w =>
    match m w with
    | (Ok a, w') => k a w'
    | (Raise e, w') => (Raise e, w')
    end.

(** [try: m  except Exception: h] *)
Definition try_except {A} (m : M A) (h : M A) : M A :=
  fun w =>
    match m w with
    | (Ok a, w') => (Ok a, w')
    | (Raise _, w') => h w'
    end.

Notation "x <- m ;; k" := (bind m (fun x => k))
  (at level 61, m at next level, right associativity).
Notation "m ;;; k" := (bind m (fun _ => k))
  (at level 61, right associativity).
Notation "' pat <- m ;; k" := (bind m (fun x => match x with pat => k end))
  (at level 61, pat pattern, m at next level, right associativity).

(** *** Dictionary access *)

Record Key (T : Type) := mkKey {
  key_name : string;
  key_get : Session -> option T;
  key_put : option T -> Session -> Session
}.
Arguments key_name {T} k.
Arguments key_get {T} k s.
Arguments key_put {T} k v s.

Definition k_poem_text : Key string :=
  mkKey _ "poem_text" poem_text
    (fun v s => mkSession v (banished_words s) (used_quotes s) (boredom s)
                  (to_imitate s) (imitation_attempts s)).

Definition k_banished_words : Key (list string) :=
  mkKey _ "banished_words" banished_words
    (fun v s => mkSession (poem_text s) v (used_quotes s) (boredom s)
                  (to_imitate s) (imitation_attempts s)).

Definition k_used_quotes : Key (list (string * string)) :=
  mkKey _ "used_quotes" used_quotes
    (fun v s => mkSession (poem_text s) (banished_words s) v (boredom s)
                  (to_imitate s) (imitation_attempts s)).

Definition k_boredom : Key Z :=
  mkKey _ "boredom" boredom
    (fun v s => mkSession (poem_text s) (banished_words s) (used_quotes s) v
                  (to_imitate s) (imitation_attempts s)).

Definition k_to_imitate : Key string :=
  mkKey _ "to_imitate" to_imitate
    (fun v s => mkSession (poem_text s) (banished_words s) (used_quotes s)
                  (boredom s) v (imitation_attempts s)).

Definition k_imitation_attempts : Key Z :=
  mkKey _ "imitation_attempts" imitation_attempts
    (fun v s => mkSession (poem_text s) (banished_words s) (used_quotes s)
                  (boredom s) (to_imitate s) v).

(** [session[k]]: [KeyError] on an absent key. *)
Definition getitem {T} (k : Key T) : M T :=
  fun w =>
    match key_get k (session w) with
    | Some v => (Ok v, w)
    | None => (Raise (KeyError (key_name k)), w)
    end.

(** [session[k] = v] *)
Definition setitem {T} (k : Key T) (v : T) : M unit :=
  fun w => (Ok tt, mkWorld (key_put k (Some v) (session w)) (tape w)).

(** [session.get(k)] *)
Definition sget {T} (k : Key T) : M (option T) :=
  fun w => (Ok (key_get k (session w)), w).

(** [if k not in session: session[k] = v] *)
Definition setdefault {T} (k : Key T) (v : T) : M unit :=
  fun w =>
    match key_get k (session w) with
    | Some _ => (Ok tt, w)
    | None => (Ok tt, mkWorld (key_put k (Some v) (session w)) (tape w))
    end.

(** [l[i]]: [IndexError] out of range. *)
Definition list_item {A} (l : list A) (i : nat) : M A :=
  match nth_error l i with
  | Some a => ret a
  | None => raise IndexError
  end.

(** *** The [random] module

    Every draw of the generator is read from the tape: a value below [n]
    is the next entry reduced modulo [n] (0 once the tape is used up), so
    the tapes range over all the outcomes the generator can produce. *)

Definition randbelow (n : nat) : M nat :=
  fun w =>
    match tape w with
    | [] => (Ok 0, w)
    | x :: t => (Ok (x mod n), mkWorld (session w) t)
    end.

(** [random.choice(l)]: [IndexError] on an empty list. *)
Definition choice {A} (l : list A) : M A :=
  match l with
  | [] => raise IndexError
  | _ :: _ => i <- randbelow (length l) ;; list_item l i
  end.

(** [random.sample(l, k)] as CPython draws from a small population:
    [pool = list(l)], then for each [i] below [k], [j = randbelow(n - i)],
    [result[i] = pool[j]] and [pool[j] = pool[n - i - 1]];
    [ValueError] when [k] exceeds the length. *)
Fixpoint sample_from {A} (pool : list A) (live : nat) (k : nat) : M (list A) :=
  match k with
  | 0 => ret []
  | S k' =>
      j <- randbelow live ;;
      x <- list_item pool j ;;
      moved <- list_item pool (live - 1) ;;
      rest <- sample_from (list_set j moved pool) (live - 1) k' ;;
      ret (x :: rest)
  end.

Definition sample {A} (l : list A) (k : nat) : M (list A) :=
  if length l <? k then raise ValueError else sample_from l (length l) k.

(** [random.shuffle(l)]:
    [for i in reversed(range(1, len(l))): j = randbelow(i + 1); swap]. *)
Fixpoint shuffle_from {A} (i : nat) (l : list A) : M (list A) :=
  match i with
  | 0 => ret l
  | S i' => j <- randbelow (S i) ;; shuffle_from i' (swap i j l)
  end.

Definition shuffle {A} (l : list A) : M (list A) :=
  shuffle_from (length l - 1) l.

(** [random.random() < 0.3]: one draw, three outcomes in ten succeed. *)
Definition random_lt_03 : M bool :=
  x <- randbelow 10 ;; ret (x <? 3).

(* =================================================================== *)
(** ** Catalogs *)
(* =================================================================== *)

(** [d.get(k, default)] on a dictionary with string keys. *)
Fixpoint dict_get {V} (d : list (string * V)) (k : string) (default : V) : V :=
  match d with
  | [] => default
  | (k', v) :: d' => if String.eqb k k' then v else dict_get d' k default
  end.

Definition MOCK_ADJECTIVES_default : list string :=
  ["beautiful"; "strange"; "wonderful"; "terrible"; "sublime"].

Definition MOCK_ADJECTIVES : list (string * list string) :=
  [("forest", ["dark"; "ancient"; "mysterious"; "green"; "dense"]);
   ("mountain", ["towering"; "snow-capped"; "rugged"; "majestic"; "distant"]);
   ("bird", ["soaring"; "melodious"; "swift"; "graceful"; "colorful"]);
   ("sea", ["vast"; "turbulent"; "azure"; "endless"; "foaming"]);
   ("default", MOCK_ADJECTIVES_default)].

Definition MOCK_VERBS_default : list (string * string) :=
  [("love", "beauty"); ("seek", "truth"); ("create", "art")].

Definition MOCK_VERBS : list (string * list (string * string)) :=
  [("wolf", [("devour", "prey"); ("hunt", "deer"); ("howl", "moon")]);
   ("bird", [("sing", "song"); ("fly", "sky"); ("build", "nest")]);
   ("mountain", [("tower", "valley"); ("shelter", "village"); ("hold", "snow")]);
   ("default", MOCK_VERBS_default)].

Definition MOCK_QUOTES : list (string * string) :=
  [("The mountains are calling and I must go.", "John Muir");
   ("In every walk with nature, one receives far more than they seek.",
    "John Muir");
   ("The sea, once it casts its spell, holds one in its net of wonder forever.",
    "Jacques Cousteau");
   ("Look deep into nature, and then you will understand everything better.",
    "Albert Einstein");
   ("The poetry of earth is never dead.", "John Keats")].

Definition MOCK_AUTHORS : list string :=
  ["dickinson"; "whitman"; "shakespeare"; "yeats"; "frost"].

(** The noun vocabulary of [_extract_nouns]. *)
Definition common_nouns : list string :=
  ["forest"; "mountain"; "bird"; "sea"; "tree"; "sky"; "sun"; "moon";
   "star"; "river"; "lake"; "flower"; "stone"; "wind"; "fire"; "earth";
   "wolf"; "deer"; "eagle"; "lion"; "bear"; "snake"; "fish"; "horse"].

(** The vocabularies of [_command_recall_noun] and [_command_comparison]. *)
Definition recall_nouns : list string :=
  ["forest"; "mountain"; "bird"; "sea"; "tree"; "sky"; "sun"; "moon"].

Definition comparison_nouns : list string :=
  ["forest"; "mountain"; "bird"; "sea"; "tree"; "sky"].

Definition related_words : list (string * list string) :=
  [("forest", ["woodland"; "grove"; "thicket"]);
   ("mountain", ["peak"; "summit"; "ridge"]);
   ("bird", ["dove"; "raven"; "sparrow"]);
   ("sea", ["ocean"; "waves"; "tide"])].

Definition banished_responses : list string :=
  ["Are you even paying attention to yourself?";
   "You forget my instructions."; "How narrow your mind...";
   "How disappointing."; "Try harder."].

Definition imitation_praises : list string :=
  ["Good."; "Satisfactory.";
   "I hope you have learned by letting go of yourself."].

Definition quote_prefixes : list string :=
  ["Learn from this mastery"; "Now imitate this"; "Emulate this discourse";
   "Listen and respond"; "Student, learn from these words"].

Definition stub_prefixes : list string :=
  ["Now finish this true sentence:"; "Now follow this wordpath:";
   "Let these words take you by the tongue:"; "Follow me:";
   "Complete these words:"].

Definition stubs : list string :=
  ["The mountains are calling and I must";
   "In every walk with nature, one receives";
   "Look deep into nature, and then you will";
   "The poetry of earth is never";
   "Two roads diverged in a yellow"].

Definition place_suffixes : list string :=
  ["land"; "ton"; "ville"; "berg"; "burg"].

(* =================================================================== *)
(** ** [GymnasionWebApp] *)
(* =================================================================== *)

(** [reset_session] *)
Definition reset_session : M unit :=
  setitem k_poem_text EmptyString ;;;
  setitem k_banished_words [] ;;;
  setitem k_used_quotes [] ;;;
  setitem k_boredom 0%Z ;;;
  setitem k_to_imitate EmptyString ;;;
  setitem k_imitation_attempts 0%Z.

(** [ensure_session] *)
Definition ensure_session : M unit :=
  setdefault k_poem_text EmptyString ;;;
  setdefault k_banished_words [] ;;;
  setdefault k_used_quotes [] ;;;
  setdefault k_boredom 0%Z ;;;
  setdefault k_to_imitate EmptyString ;;;
  setdefault k_imitation_attempts 0%Z.

(** [_extract_nouns] *)
Definition _extract_nouns (text : string) : list string :=
  let words := split (lower text) in
  filter (fun word => str_in word common_nouns) words.

(** [_question_about_adjectives] *)
Definition _question_about_adjectives (text : string) : M (option string) :=
  let nouns := _extract_nouns text in
  if negb (list_truthy nouns) then ret None
  else
    noun <- choice nouns ;;
    let adjectives := dict_get MOCK_ADJECTIVES noun MOCK_ADJECTIVES_default in
    adj_sample <- sample adjectives (Nat.min 2 (length adjectives)) ;;
    a0 <- list_item adj_sample 0 ;;
    a1 <- (if 1 <? length adj_sample
           then (a <- list_item adj_sample 1 ;; ret (title a))
           else ret "Beautiful") ;;
    ret (Some ("What sort of " +s+ noun +s+ "? " +s+ title a0 +s+ "? "
               +s+ a1 +s+ "?")).

(** [_question_about_verb] *)
Definition _question_about_verb (text : string) : M (option string) :=
  let nouns := _extract_nouns text in
  if negb (list_truthy nouns) then ret None
  else
    noun <- choice nouns ;;
    let verbs := dict_get MOCK_VERBS noun MOCK_VERBS_default in
    '(verb, obj) <- choice verbs ;;
    let beginnings :=
      ["What could"; "Why does"; "What shall"; "What did"; "Why would"] in
    b <- choice beginnings ;;
    ret (Some (b +s+ " the " +s+ noun +s+ " " +s+ verb +s+ "?")).

(** [_question_about_object] *)
Definition _question_about_object (text : string) : M (option string) :=
  let nouns := _extract_nouns text in
  if negb (list_truthy nouns) then ret None
  else
    noun <- choice nouns ;;
    let verbs := dict_get MOCK_VERBS noun MOCK_VERBS_default in
    '(verb, obj) <- choice verbs ;;
    let beginnings := ["What could"; "What does"; "What shall"; "What did"] in
    b <- choice beginnings ;;
    ret (Some (b +s+ " the " +s+ noun +s+ " do to the " +s+ obj +s+ "?")).

(** [_suggest_quote] *)
Definition _suggest_quote (text : string) : M (option string) :=
  uq <- getitem k_used_quotes ;;
  (if list_truthy uq && (length MOCK_QUOTES <=? length uq)
   then setitem k_used_quotes []
   else ret tt) ;;;
  uq <- getitem k_used_quotes ;;
  let available_quotes := filter (fun q => negb (pair_in q uq)) MOCK_QUOTES in
  if negb (list_truthy available_quotes) then ret None
  else
    '(quote, author) <- choice available_quotes ;;
    uq <- getitem k_used_quotes ;;
    setitem k_used_quotes (uq ++ [(quote, author)]) ;;;
    p <- choice quote_prefixes ;;
    ret (Some (p +s+ ":" +s+ nl +s+ dq +s+ quote +s+ dq +s+ nl
               +s+ "   (" +s+ author +s+ ")")).

(** [_word_banishment] *)
Definition _word_banishment (text : string) : M (option string) :=
  let nouns := _extract_nouns text in
  bw <- getitem k_banished_words ;;
  let available_nouns := filter (fun n => negb (str_in n bw)) nouns in
  if negb (list_truthy available_nouns) then ret None
  else
    banned_word <- choice available_nouns ;;
    bw <- getitem k_banished_words ;;
    setitem k_banished_words (bw ++ [banned_word]) ;;;
    let rel_words := ["kin"; "brethren"; "kindred"; "neighbors"] in
    r <- choice rel_words ;;
    ret (Some ("I forbid you from singing of " +s+ banned_word
               +s+ " or this word's " +s+ r +s+ ".")).

(** The loop of [_check_banished_words]: the first word of the text that
    is banished decides. *)
Fixpoint check_banished_loop (words : list string) : M (option string) :=
  match words with
  | [] => ret None
  | word :: rest =>
      bw <- getitem k_banished_words ;;
      if str_in word bw
      then
        r <- choice banished_responses ;;
        ret (Some (r +s+ nl +s+ "I said not to sing of " +s+ word +s+ "..."))
      else check_banished_loop rest
  end.

(** [_check_banished_words] *)
Definition _check_banished_words (text : string) : M (option string) :=
  bw <- sget k_banished_words ;;
  if negb (opt_truthy list_truthy bw) then ret None
  else check_banished_loop (split (lower text)).

(** [_authorial_imitation] *)
Definition _authorial_imitation (text : string) : M (option string) :=
  ti <- sget k_to_imitate ;;
  if negb (opt_truthy str_truthy ti)
  then
    author <- choice MOCK_AUTHORS ;;
    setitem k_to_imitate author ;;;
    setitem k_imitation_attempts 3%Z ;;;
    ret (Some ("Try that again, in the style of " +s+ title author +s+ "."))
  else
    n <- getitem k_imitation_attempts ;;
    setitem k_imitation_attempts (n - 1)%Z ;;;
    n <- getitem k_imitation_attempts ;;
    resolved <- (if (n <=? 0)%Z then ret true else random_lt_03) ;;
    if (resolved : bool)
    then
      response <- choice imitation_praises ;;
      setitem k_to_imitate EmptyString ;;;
      setitem k_imitation_attempts 0%Z ;;;
      ret (Some response)
    else
      a <- getitem k_to_imitate ;;
      ret (Some ("No, not that style --- imitate " +s+ title a +s+ ".")).

(** [_suggest_quote_stub] *)
Definition _suggest_quote_stub (text : string) : M (option string) :=
  stub <- choice stubs ;;
  p <- choice stub_prefixes ;;
  ret (Some (p +s+ nl +s+ dq +s+ stub +s+ "..." +s+ dq)).

(** The comprehension of [_comment_about_entities]:
    [[word for word in words if word[0].isupper() and len(word) > 2]]. *)
Fixpoint entities_of (words : list string) : M (list string) :=
  match words with
  | [] => ret []
  | word :: rest =>
      keep <- match word with
              | EmptyString => raise IndexError
              | String c _ => ret (isupper c && (2 <? String.length word))
              end ;;
      es <- entities_of rest ;;
      ret (if (keep : bool) then word :: es else es)
  end.

(** [_comment_about_entities] *)
Definition _comment_about_entities (text : string) : M (option string) :=
  let words := split text in
  entities <- entities_of words ;;
  if negb (list_truthy entities) then ret None
  else
    entity <- choice entities ;;
    let person_questions :=
      ["Now sing in praise of " +s+ entity +s+ "...";
       "Now sing me of the youth of " +s+ entity +s+ "...";
       "Now sing to me what we may learn from the sins of " +s+ entity
         +s+ "..."] in
    let place_questions :=
      ["Show me " +s+ entity +s+ "...the taste of the people, the customs...";
       "Yes, now lure me to " +s+ entity +s+ "...";
       "Now describe the history of " +s+ entity +s+ "..."] in
    if endswith_any (lower entity) place_suffixes
    then (q <- choice place_questions ;; ret (Some q))
    else (q <- choice person_questions ;; ret (Some q)).

(** [_word2vec_suggestions] (the statements after its first [return] are
    never run). *)
Definition _word2vec_suggestions (text : string) : M (option string) :=
  let nouns := _extract_nouns text in
  if negb (list_truthy nouns) then ret None
  else
    noun <- choice nouns ;;
    let suggestions := dict_get related_words noun ["beauty"; "truth"; "wonder"] in
    selected <- sample suggestions (Nat.min 2 (length suggestions)) ;;
    let response := "You've sung me " +s+ noun +s+ "...now sing me " in
    ret (Some (fold_left (fun acc word => acc +s+ word +s+ "...") selected
                         response)).

(** [_repetition_judgment] *)
Definition _repetition_judgment (text : string) : M (option string) :=
  b <- getitem k_boredom ;;
  if (b <? 3)%Z then ret None
  else
    let words := split text in
    first_is_i <- (if 3 <? length words
                   then (w0 <- list_item words 0 ;;
                         ret (String.eqb (lower w0) "i"))
                   else ret false) ;;
    if (first_is_i : bool)
    then
      setitem k_boredom 0%Z ;;;
      ret (Some ("Eschew this tired syntax:" +s+ nl +s+ "   " +s+ dq
                 +s+ join " " (slice_to 4 words) +s+ "..." +s+ dq))
    else ret None.

(** [_command_recall_noun]; each ending is a template that closes with its
    only placeholder. *)
Definition _command_recall_noun (text : string) : M (option string) :=
  b <- getitem k_boredom ;;
  if (b <? 5)%Z then ret None
  else
    p <- getitem k_poem_text ;;
    let poem_words := split p in
    let nouns := filter (fun word => str_in (lower word) recall_nouns)
                        poem_words in
    if negb (list_truthy nouns) then ret None
    else
      setitem k_boredom 0%Z ;;;
      old_noun <- choice nouns ;;
      let beginnings :=
        ["I grow weary."; "I grow bored."; "You have lost the thread."] in
      let endings :=
        ["Return to the part about the "; "Tell me more about the "] in
      b <- choice beginnings ;;
      e <- choice endings ;;
      ret (Some (b +s+ " " +s+ e +s+ old_noun +s+ ".")).

(** [_command_comparison] *)
Definition _command_comparison (text : string) : M (option string) :=
  b <- getitem k_boredom ;;
  if (b <? 5)%Z then ret None
  else
    let current_nouns := _extract_nouns text in
    p <- getitem k_poem_text ;;
    let poem_words := split p in
    let old_nouns := filter (fun word => str_in (lower word) comparison_nouns)
                            poem_words in
    if negb (list_truthy current_nouns) || negb (list_truthy old_nouns)
    then ret None
    else
      setitem k_boredom 0%Z ;;;
      current_noun <- choice current_nouns ;;
      old_noun <- choice old_nouns ;;
      let questions :=
        ["Which will last longer?"; "Which is deeper?";
         "Which is more lovely?"; "Which is closer to the divine?";
         "Which is more virtuous?"] in
      q <- choice questions ;;
      ret (Some ("Now compare the " +s+ old_noun +s+ " to the "
                 +s+ current_noun +s+ ". " +s+ q)).

(* =================================================================== *)
(** ** The dispatcher *)
(* =================================================================== *)

(** The bound methods that the mode table lists. *)
Inductive strategy :=
| question_about_adjectives
| question_about_verb
| question_about_object
| word2vec_suggestions
| comment_about_entities
| suggest_quote
| suggest_quote_stub
| authorial_imitation
| word_banishment
| check_banished_words
| repetition_judgment
| command_recall_noun
| command_comparison.

(** Calling a bound method. *)
Definition call (f : strategy) (text : string) : M (option string) :=
  match f with
  | question_about_adjectives => _question_about_adjectives text
  | question_about_verb => _question_about_verb text
  | question_about_object => _question_about_object text
  | word2vec_suggestions => _word2vec_suggestions text
  | comment_about_entities => _comment_about_entities text
  | suggest_quote => _suggest_quote text
  | suggest_quote_stub => _suggest_quote_stub text
  | authorial_imitation => _authorial_imitation text
  | word_banishment => _word_banishment text
  | check_banished_words => _check_banished_words text
  | repetition_judgment => _repetition_judgment text
  | command_recall_noun => _command_recall_noun text
  | command_comparison => _command_comparison text
  end.

Definition mixed_functions : list strategy :=
  [question_about_adjectives; question_about_verb; question_about_object;
   suggest_quote; word_banishment; check_banished_words;
   authorial_imitation; word2vec_suggestions; repetition_judgment;
   command_recall_noun; command_comparison].

(** The dictionary [mode_functions] of [analyze_text]. *)
Definition mode_functions : list (string * list strategy) :=
  [("elaboration",
    [question_about_adjectives; question_about_verb; question_about_object;
     word2vec_suggestions; comment_about_entities]);
   ("imitation", [suggest_quote; suggest_quote_stub; authorial_imitation]);
   ("variation", [word_banishment; check_banished_words; repetition_judgment]);
   ("backtracking", [command_recall_noun; command_comparison]);
   ("mixed", mixed_functions)].

(** [mode_functions.get(mode, mode_functions['mixed'])] *)
Definition pool_of (mode : string) : list strategy :=
  dict_get mode_functions mode mixed_functions.

(** Truth value of a strategy's return value ([None] or a string). *)
Definition response_truthy (r : option string) : bool :=
  opt_truthy str_truthy r.

(** The loop over the shuffled strategies: the first truthy response is
    returned, a strategy that raises is passed over ([continue]), and the
    loop's exhaustion gives the fallback. *)
Fixpoint try_responses (response_types : list strategy) (text : string)
  : M (option string) :=
  match response_types with
  | [] => ret (Some "Continue...")
  | response_func :: rest =>
      response <- try_except (call response_func text) (ret None) ;;
      if response_truthy response then ret response
      else try_responses rest text
  end.

(** [analyze_text] *)
Definition analyze_text (text : string) (mode : string) : M (option string) :=
  if negb (str_truthy (strip text)) then ret None
  else
    ensure_session ;;;
    p <- getitem k_poem_text ;;
    setitem k_poem_text (p +s+ nl +s+ text) ;;;
    b <- getitem k_boredom ;;
    setitem k_boredom (b + 1)%Z ;;;
    let response_types := pool_of mode in
    bw <- sget k_banished_words ;;
    banned_check <- (if opt_truthy list_truthy bw
                     then _check_banished_words text
                     else ret None) ;;
    if response_truthy banned_check then ret banned_check
    else
      ti <- sget k_to_imitate ;;
      imitation_check <- (if opt_truthy str_truthy ti
                             && str_in mode ["imitation"; "mixed"]
                          then _authorial_imitation text
                          else ret None) ;;
      if response_truthy imitation_check then ret imitation_check
      else
        response_types <- shuffle response_types ;;
        try_responses response_types text.

(** The [response] field of the [/analyze] handler: the stripped text is
    refused when empty and handed to [analyze_text] otherwise. *)
Definition analyze (text : string) (mode : string) : M string :=
  let user_input := strip text in
  if negb (str_truthy user_input) then ret "Please enter some text."
  else
    response <- analyze_text user_input mode ;;
    ret (if response_truthy response
         then match response with Some r => r | None => "Continue..." end
         else "Continue...").

(** [session.clear()] *)
Definition session_clear : M unit :=
  fun w => (Ok tt, mkWorld (mkSession None None None None None None) (tape w)).

(** The [/reset] handler. *)
Definition reset : M unit :=
  session_clear ;;; reset_session.

(** The engine's entry points as the specification names them:
    [process_turn] is the response of the [/analyze] handler. *)
Definition process_turn (text mode : string) : M string := analyze text mode.

(* =================================================================== *)
(** ** Vocabulary of the specification *)
(* =================================================================== *)

(** *** Calls and their outcomes *)

(** [wp m w Q]: the call [m], made in the store [w], ends (by a return or
    by a raise) in a result and a store that [Q] relates. *)
Definition wp {A} (m : M A) (w : World) (Q : result A -> World -> Prop) : Prop :=
  Q (fst (m w)) (snd (m w)).

(** A call produced a response: it returned a truthy value. *)
Definition produced (r : result (option string)) : bool :=
  match r with
  | Ok o => response_truthy o
  | Raise _ => false
  end.

(** *** Sessions *)

(** The session [s] with [v] stored under [k]. *)
Definition put {T} (k : Key T) (v : T) (s : Session) : Session :=
  key_put k (Some v) s.

Definition or_default {T} (o : option T) (d : T) : T :=
  match o with Some v => v | None => d end.

(** The six keys are there, as after [ensure_session]. *)
Definition keys_present (s : Session) : bool :=
  match s with
  | mkSession (Some _) (Some _) (Some _) (Some _) (Some _) (Some _) => true
  | _ => false
  end.

(** The session of a new client: an empty dictionary. *)
Definition empty_session : Session := mkSession None None None None None None.

(** The session once [ensure_session] has filled the absent keys. *)
Definition with_defaults (s : Session) : Session :=
  mkSession (Some (or_default (poem_text s) EmptyString))
            (Some (or_default (banished_words s) []))
            (Some (or_default (used_quotes s) []))
            (Some (or_default (boredom s) 0%Z))
            (Some (or_default (to_imitate s) EmptyString))
            (Some (or_default (imitation_attempts s) 0%Z)).

(** The session after the first statements of [analyze_text]: the keys are
    there, the text is appended to the poem and boredom has grown by one. *)
Definition bump (text : string) (s : Session) : Session :=
  mkSession (Some (or_default (poem_text s) EmptyString +s+ nl +s+ text))
            (Some (or_default (banished_words s) []))
            (Some (or_default (used_quotes s) []))
            (Some (or_default (boredom s) 0 + 1)%Z)
            (Some (or_default (to_imitate s) EmptyString))
            (Some (or_default (imitation_attempts s) 0%Z)).

(** The read accessors, [session.get(key, default)]. *)
Definition boredom_of (s : Session) : Z := or_default (boredom s) 0%Z.

Definition attempts_of (s : Session) : Z := or_default (imitation_attempts s) 0%Z.

Definition banished_of (s : Session) : list string :=
  or_default (banished_words s) [].

Definition quotes_of (s : Session) : list (string * string) :=
  or_default (used_quotes s) [].

(** An imitation target is set: [session.get('to_imitate')] is truthy. *)
Definition target_set (s : Session) : bool := opt_truthy str_truthy (to_imitate s).

(** The sessions a client can bring about: the empty dictionary of a new
    client, and what [/analyze] and [/reset] make of a session, whatever the
    generator draws. *)
Inductive reachable : Session -> Prop :=
| reachable_new : reachable empty_session
| reachable_turn s text mode t :
    reachable s ->
    reachable (session (snd (process_turn text mode (mkWorld s t))))
| reachable_reset s t :
    reachable s -> reachable (session (snd (reset (mkWorld s t)))).

(** *** Texts *)


(** The first word of the lower-cased text that is in [bw]. *)
Definition first_banished (bw : list string) (text : string) : option string :=
  find (fun word => str_in word bw) (split (lower text)).


(** The responses of [_check_banished_words], [_suggest_quote] and
    [_repetition_judgment]. *)
Definition banished_warning (r word : string) : string :=
  r +s+ nl +s+ "I said not to sing of " +s+ word +s+ "...".

Definition quote_response (p : string) (q : string * string) : string :=
  p +s+ ":" +s+ nl +s+ dq +s+ fst q +s+ dq +s+ nl +s+ "   (" +s+ snd q +s+ ")".

Definition complaint (words : list string) : string :=
  "Eschew this tired syntax:" +s+ nl +s+ "   " +s+ dq
    +s+ join " " (slice_to 4 words) +s+ "..." +s+ dq.

(** The quotes of the current cycle: [_suggest_quote] empties a list that
    is as long as the catalog before it chooses. *)
Definition cycle (uq : list (string * string)) : list (string * string) :=
  if list_truthy uq && (length MOCK_QUOTES <=? length uq) then [] else uq.

(** *** Modes *)

Definition named_modes : list string :=
  ["elaboration"; "imitation"; "variation"; "backtracking"; "mixed"].

Definition group_modes : list string :=
  ["elaboration"; "imitation"; "variation"; "backtracking"].

(** The strategies a turn in [mode] may call: the two of the priority
    checks and those of the mode's pool. *)
Definition candidates (mode : string) : list strategy :=
  check_banished_words :: authorial_imitation :: pool_of mode.


(** *** What a strategy does when it answers *)

(** The strategies that never write to the session. *)
Definition stateless (f : strategy) : bool :=
  match f with
  | question_about_adjectives | question_about_verb | question_about_object
  | word2vec_suggestions | comment_about_entities | suggest_quote_stub
  | check_banished_words => true
  | _ => false
  end.

(** [fired text s f resp s']: strategy [f], called on [text] in a session
    [s] that has its keys, may answer [resp] and leave the session [s']. *)
Inductive fired (text : string) (s : Session) : strategy -> string -> Session -> Prop :=
| fired_stateless f r :
    stateless f = true -> fired text s f r s
| fired_quote uq q p :
    used_quotes s = Some uq -> In q MOCK_QUOTES -> ~ In q (cycle uq) ->
    In p quote_prefixes ->
    fired text s suggest_quote (quote_response p q)
          (put k_used_quotes (cycle uq ++ [q]) s)
| fired_banish bw n r :
    banished_words s = Some bw -> In n (_extract_nouns text) -> ~ In n bw ->
    fired text s word_banishment r (put k_banished_words (bw ++ [n]) s)
| fired_challenge a :
    opt_truthy str_truthy (to_imitate s) = false -> In a MOCK_AUTHORS ->
    fired text s authorial_imitation
          ("Try that again, in the style of " +s+ title a +s+ ".")
          (put k_imitation_attempts 3%Z (put k_to_imitate a s))
| fired_resolved a n r :
    to_imitate s = Some a -> str_truthy a = true ->
    imitation_attempts s = Some n -> In r imitation_praises ->
    fired text s authorial_imitation r
          (put k_imitation_attempts 0%Z (put k_to_imitate EmptyString s))
| fired_retry a n :
    to_imitate s = Some a -> str_truthy a = true ->
    imitation_attempts s = Some n -> (0 < n - 1)%Z ->
    fired text s authorial_imitation
          ("No, not that style --- imitate " +s+ title a +s+ ".")
          (put k_imitation_attempts (n - 1)%Z s)
| fired_repetition b :
    boredom s = Some b -> (3 <= b)%Z -> 3 < length (split text) ->
    lower (hd EmptyString (split text)) = "i" ->
    fired text s repetition_judgment (complaint (split text))
          (put k_boredom 0%Z s)
| fired_recall b r :
    boredom s = Some b -> (5 <= b)%Z ->
    fired text s command_recall_noun r (put k_boredom 0%Z s)
| fired_comparison b r :
    boredom s = Some b -> (5 <= b)%Z ->
    fired text s command_comparison r (put k_boredom 0%Z s).

(** What a call of a strategy may do in a session that has its six keys:
    return [None] and leave the session alone, or answer. *)
Definition call_post (f : strategy) (text : string) (s : Session)
  (r : result (option string)) (w' : World) : Prop :=
  (r = Ok None /\ session w' = s) \/
  (exists resp, r = Ok (Some resp) /\ str_truthy resp = true /\
                fired text s f resp (session w')).

(** What the loop of [_check_banished_words] does on [words]. *)
Definition check_post (bw : list string) (words : list string) (s : Session)
  (r : result (option string)) (w' : World) : Prop :=
  session w' = s /\
  match find (fun word => str_in word bw) words with
  | Some x => exists resp, In resp banished_responses /\
                           r = Ok (Some (banished_warning resp x))
  | None => r = Ok None
  end.

(** Strategy [f], called on [text] in session [s], gave the response
    [resp] and left the store [w']. *)
Definition answered (text : string) (s : Session) (f : strategy)
  (resp : string) (w' : World) : Prop :=
  str_truthy resp = true /\
  fired text s f resp (session w') /\
  exists t0, call f text (mkWorld s t0) = (Ok (Some resp), w').

Definition call_outcome (f : strategy) (text : string) (s : Session)
  (r : result (option string)) (w' : World) : Prop :=
  (r = Ok None /\ session w' = s) \/
  (exists resp, r = Ok (Some resp) /\ answered text s f resp w').

(** The outcomes of the selection among the strategies [fs]: the fallback
    in an untouched session, or the answer of one of them. *)
Definition selected (fs : list strategy) (text : string) (s : Session)
  (r : result (option string)) (w' : World) : Prop :=
  (r = Ok (Some "Continue...") /\ session w' = s) \/
  (exists f resp, In f fs /\ r = Ok (Some resp) /\ answered text s f resp w').

(** The outcomes of a turn whose stripped text is [text]. *)
Definition turn_outcome (text mode : string) (s : Session)
  (r : result string) (w' : World) : Prop :=
  (r = Ok "Continue..." /\ session w' = bump text s) \/
  (exists f resp, In f (candidates mode) /\ r = Ok resp /\
                  answered text (bump text s) f resp w').

(** *** Invariants *)

Definition banished_ok (s : Session) : Prop :=
  NoDup (banished_of s) /\ incl (banished_of s) common_nouns.


Definition imitation_ok (s : Session) : Prop :=
  (target_set s = false /\ attempts_of s = 0%Z) \/
  (target_set s = true /\ (1 <= attempts_of s <= 3)%Z).

(** The imitation automaton: a challenge to imitate [a] with [n] attempts
    left, and no challenge; [imitate] is the session that one invocation of
    [_authorial_imitation] leaves. *)
Definition challenged (s : Session) (a : string) (n : Z) : Prop :=
  to_imitate s = Some a /\ imitation_attempts s = Some n.

Definition idle (s : Session) : Prop :=
  to_imitate s = Some EmptyString /\ imitation_attempts s = Some 0%Z.

Definition imitate (text : string) (s : Session) (t : list nat) : Session :=
  session (snd (_authorial_imitation text (mkWorld s t))).

(** *** Sessions of the examples *)

Definition forest_session : Session :=
  mkSession (Some (nl +s+ "I love the forest")) (Some ["forest"]) (Some [])
            (Some 1%Z) (Some EmptyString) (Some 0%Z).

Definition challenge_session (n : Z) : Session :=
  mkSession (Some EmptyString) (Some []) (Some []) (Some 1%Z) (Some "yeats")
            (Some n).

Definition bored_session (b : Z) : Session :=
  mkSession (Some EmptyString) (Some []) (Some []) (Some b) (Some EmptyString)
            (Some 0%Z).

(* =================================================================== *)
(** ** The handlers [/analyze] and [/status] in full *)
(* =================================================================== *)

(** The [/status] handler: the read accessors of the session. *)
Record Status := mkStatus {
  st_banished_words : list string;
  st_to_imitate : string;
  st_poem_length : nat;
  st_boredom : Z
}.

Definition status : M Status :=
  bw <- sget k_banished_words ;;
  ti <- sget k_to_imitate ;;
  p <- sget k_poem_text ;;
  b <- sget k_boredom ;;
  ret (mkStatus (or_default bw []) (or_default ti EmptyString)
                (length (split (or_default p EmptyString)))
                (or_default b 0%Z)).

(** The JSON object that the [/analyze] handler returns. *)
Inductive Reply :=
| Prompt (response : string)
| Analysis (response : string) (banished : list string) (target : string)
           (poem_length : nat) (current_mode : string).

Definition reply_response (r : Reply) : string :=
  match r with
  | Prompt response => response
  | Analysis response _ _ _ _ => response
  end.


(** The number of words of the poem, as the handlers report it. *)
Definition poem_length (s : Session) : nat :=
  length (split (or_default (poem_text s) EmptyString)).

(** *** The ways a turn can end *)

(** The three ways a turn on a text that is not blank can end. *)
Definition turn_cases (text mode : string) (s : Session)
  (r : result string) (w' : World) : Prop :=
  ((exists x resp, first_banished (banished_of s) text = Some x /\
                   r = Ok (banished_warning resp x)) /\
   session w' = bump text s) \/
  (first_banished (banished_of s) text = None /\
   target_set s = true /\ str_in mode ["imitation"; "mixed"] = true /\
   exists resp, r = Ok resp /\
                answered text (bump text s) authorial_imitation resp w') \/
  (first_banished (banished_of s) text = None /\
   target_set s && str_in mode ["imitation"; "mixed"] = false /\
   ((r = Ok "Continue..." /\ session w' = bump text s) \/
    exists f resp, In f (pool_of mode) /\ r = Ok resp /\
                   answered text (bump text s) f resp w')).

(** A strategy that answers whatever the generator draws. *)
Definition always_answers (f : strategy) (text : string) (s : Session) : Prop :=
  forall t0, exists resp w', call f text (mkWorld s t0) = (Ok (Some resp), w').

(** *** What the strategies read *)

(** The words of the poem that [_command_recall_noun] and
    [_command_comparison] may name: those whose lower-cased form is in the
    strategy's vocabulary. *)
Definition recallable (p : string) : list string :=
  filter (fun word => str_in (lower word) recall_nouns) (split p).

Definition comparable (p : string) : list string :=
  filter (fun word => str_in (lower word) comparison_nouns) (split p).


Definition person_questions (entity : string) : list string :=
  ["Now sing in praise of " +s+ entity +s+ "...";
   "Now sing me of the youth of " +s+ entity +s+ "...";
   "Now sing to me what we may learn from the sins of " +s+ entity +s+ "..."].

Definition place_questions (entity : string) : list string :=
  ["Show me " +s+ entity +s+ "...the taste of the people, the customs...";
   "Yes, now lure me to " +s+ entity +s+ "...";
   "Now describe the history of " +s+ entity +s+ "..."].

(** *** More sessions of the examples *)

Definition default_session : Session :=
  mkSession (Some EmptyString) (Some []) (Some []) (Some 0%Z)
            (Some EmptyString) (Some 0%Z).

Definition weary_session : Session :=
  mkSession (Some "The Forest is dark") (Some []) (Some []) (Some 5%Z)
            (Some EmptyString) (Some 0%Z).

End Gymnasion.

Import Py Gymnasion.

(* ===================================================================== *)
(** ** Strings *)
(* ===================================================================== *)

Lemma isspace_lower_char c : isspace (lower_char c) = isspace c.
Proof. destruct c as [[] [] [] [] [] [] [] []]; reflexivity. Qed.

Lemma split_nonempty_words s : Forall (fun w => w <> EmptyString) (split s).
Proof.
  induction s as [|c s IH]; simpl; [constructor|].
  destruct (isspace c); [exact IH|].
  destruct s as [|c' s']; [repeat constructor; discriminate|].
  destruct (isspace c'); [constructor; [discriminate|exact IH]|].
  destruct (split (String c' s')) as [|w ws]; [repeat constructor; discriminate|].
  inversion IH; subst. constructor; [discriminate|assumption].
Qed.

Lemma split_lstrip s : split (lstrip s) = split s.
Proof.
  induction s as [|c s IH]; [reflexivity|].
  cbn [lstrip]. destruct (isspace c) eqn:E; [rewrite IH; simpl; rewrite E; reflexivity|reflexivity].
Qed.

(** A string with no word strips to the empty string, and conversely. *)
Lemma rstrip_truthy s : str_truthy (rstrip s) = list_truthy (split s).
Proof.
  induction s as [|c s IH]; [reflexivity|].
  cbn [rstrip split]. destruct (isspace c) eqn:E; cbn [andb].
  - rewrite <- IH. destruct (rstrip s); reflexivity.
  - destruct s as [|c' s']; [reflexivity|].
    destruct (isspace c'); [reflexivity|].
    destruct (split (String c' s')); reflexivity.
Qed.

Lemma split_rstrip s : split (rstrip s) = split s.
Proof.
  induction s as [|c s IH]; [reflexivity|].
  cbn [rstrip]. pose proof (rstrip_truthy s) as T.
  destruct (isspace c) eqn:E; cbn [andb].
  - destruct (rstrip s) as [|r rs] eqn:R; cbn [str_truthy negb].
    + simpl. rewrite E. simpl in T. destruct (split s); [reflexivity|discriminate].
    + cbn [split]. rewrite E. fold split. rewrite <- R in *. rewrite <- IH. rewrite R. reflexivity.
  - cbn [split]. rewrite E.
    destruct s as [|c' s']; [reflexivity|].
    cbn [rstrip] in *.
    destruct (isspace c' && negb (str_truthy (rstrip s'))) eqn:B.
    + apply andb_true_iff in B as [B1 B2]. rewrite B1.
      cbn [str_truthy] in T. destruct (split (String c' s')); [reflexivity|discriminate].
    + destruct (isspace c') eqn:E'.
      * rewrite IH. reflexivity.
      * rewrite IH. reflexivity.
Qed.

Lemma split_strip s : split (strip s) = split s.
Proof. unfold strip. rewrite split_rstrip. apply split_lstrip. Qed.

Lemma strip_truthy s : str_truthy (strip s) = list_truthy (split s).
Proof. unfold strip. rewrite rstrip_truthy. rewrite split_lstrip. reflexivity. Qed.

Lemma strip_strip_truthy text : str_truthy (strip (strip text)) = str_truthy (strip text).
Proof. rewrite !strip_truthy, split_strip. reflexivity. Qed.

Lemma split_lower s : split (lower s) = map lower (split s).
Proof.
  induction s as [|c s IH]; [reflexivity|].
  cbn [lower split]. rewrite isspace_lower_char.
  destruct (isspace c); [exact IH|].
  destruct s as [|c' s']; [reflexivity|].
  cbn [lower] in *. rewrite isspace_lower_char.
  destruct (isspace c'); [rewrite IH; reflexivity|].
  rewrite IH. destruct (split (String c' s')); reflexivity.
Qed.



Lemma str_truthy_append a b : str_truthy (a +s+ b) = str_truthy a || str_truthy b.
Proof. destruct a; simpl; [destruct b|]; reflexivity. Qed.

Lemma str_truthy_append_l a b : str_truthy a = true -> str_truthy (a +s+ b) = true.
Proof. intros H. rewrite str_truthy_append, H. reflexivity. Qed.

Lemma str_truthy_append_r a b : str_truthy b = true -> str_truthy (a +s+ b) = true.
Proof. intros H. rewrite str_truthy_append, H. apply orb_true_r. Qed.

Lemma str_in_iff w l : str_in w l = true <-> In w l.
Proof.
  unfold str_in. rewrite existsb_exists. split.
  - intros (x & Hx & E). apply String.eqb_eq in E. subst. exact Hx.
  - intros H. exists w. split; [exact H|apply String.eqb_refl].
Qed.

Lemma pair_in_iff p l : pair_in p l = true <-> In p l.
Proof.
  unfold pair_in. rewrite existsb_exists. split.
  - intros ([a b] & Hx & E). unfold pair_eqb in E. apply andb_true_iff in E as [E1 E2].
    apply String.eqb_eq in E1, E2. destruct p; simpl in *; subst. exact Hx.
  - intros H. exists p. split; [exact H|]. unfold pair_eqb.
    rewrite !String.eqb_refl. reflexivity.
Qed.

Lemma str_in_false w l : str_in w l = false -> ~ In w l.
Proof. intros E H. apply str_in_iff in H. congruence. Qed.

Lemma pair_in_false p l : pair_in p l = false -> ~ In p l.
Proof. intros E H. apply pair_in_iff in H. congruence. Qed.

(* ===================================================================== *)
(** ** Lists and catalogs *)
(* ===================================================================== *)

Lemma list_truthy_nonempty {A} (l : list A) : negb (list_truthy l) = false -> l <> [].
Proof. destruct l; simpl; congruence. Qed.

Lemma length_list_set {A} i (x : A) l : length (list_set i x l) = length l.
Proof. revert i; induction l; destruct i; simpl; auto. Qed.

Lemma in_list_set {A} i (x y : A) l : In y (list_set i x l) -> y = x \/ In y l.
Proof.
  revert i; induction l as [|a l IH]; destruct i; simpl; auto.
  - intros [->|H]; auto.
  - intros [->|H]; auto. apply IH in H. tauto.
Qed.

Lemma in_swap {A} i j (l : list A) x : In x (swap i j l) -> In x l.
Proof.
  unfold swap. destruct (nth_error l i) eqn:Ei; auto.
  destruct (nth_error l j) eqn:Ej; auto.
  intros H. apply in_list_set in H as [->|H]; [eapply nth_error_In; eauto|].
  apply in_list_set in H as [->|H]; [eapply nth_error_In; eauto|auto].
Qed.

Lemma NoDup_snoc {A} (l : list A) x : NoDup l -> ~ In x l -> NoDup (l ++ [x]).
Proof.
  intros N H. induction N as [|y l Hy N IH]; simpl.
  - constructor; [intros []|constructor].
  - constructor.
    + rewrite in_app_iff. simpl. intros [I|[->|[]]]; [contradiction|].
      apply H. left. reflexivity.
    + apply IH. intros I. apply H. right. exact I.
Qed.

Lemma incl_snoc {A} (l m : list A) x : incl l m -> In x m -> incl (l ++ [x]) m.
Proof. intros I H y Hy. apply in_app_iff in Hy as [Hy|[<-|[]]]; auto. Qed.

Lemma dict_get_in {V} (d : list (string * V)) k dflt (P : V -> Prop) :
  P dflt -> Forall (fun kv => P (snd kv)) d -> P (dict_get d k dflt).
Proof.
  intros Hd Hf. induction Hf as [|[k' v] d Hv _ IH]; simpl; auto.
  destruct (String.eqb k k'); auto.
Qed.

Lemma adjectives_length noun :
  length (dict_get MOCK_ADJECTIVES noun MOCK_ADJECTIVES_default) = 5.
Proof. apply dict_get_in; [reflexivity|repeat constructor]. Qed.

Lemma verbs_nonempty noun : dict_get MOCK_VERBS noun MOCK_VERBS_default <> [].
Proof. apply dict_get_in; [discriminate|repeat constructor; discriminate]. Qed.

Lemma related_length noun :
  length (dict_get related_words noun ["beauty"; "truth"; "wonder"]) = 3.
Proof. apply dict_get_in; [reflexivity|repeat constructor]. Qed.

Lemma praises_truthy r : In r imitation_praises -> str_truthy r = true.
Proof. simpl. intros [<-|[<-|[<-|[]]]]; reflexivity. Qed.

Lemma authors_truthy a : In a MOCK_AUTHORS -> str_truthy a = true.
Proof. simpl. intros [<-|[<-|[<-|[<-|[<-|[]]]]]]; reflexivity. Qed.

Lemma banished_warning_truthy r x : str_truthy (banished_warning r x) = true.
Proof. unfold banished_warning. apply str_truthy_append_r. reflexivity. Qed.

Lemma fold_dots_truthy selected : forall acc,
  str_truthy acc = true ->
  str_truthy (fold_left (fun acc word => acc +s+ word +s+ "...") selected acc) = true.
Proof.
  induction selected as [|w ws IH]; intros acc H; simpl; [exact H|].
  apply IH. apply str_truthy_append_l. exact H.
Qed.

Lemma extract_nouns_common text n : In n (_extract_nouns text) -> In n common_nouns.
Proof.
  unfold _extract_nouns. intros H. apply filter_In in H as [_ H].
  apply str_in_iff. exact H.
Qed.



(* ===================================================================== *)
(** ** Rules for calls *)
(* ===================================================================== *)

Lemma wp_ret {A} (a : A) w Q : Q (Ok a) w -> wp (ret a) w Q.
Proof. exact (fun H => H). Qed.

Lemma wp_raise {A} e w (Q : result A -> World -> Prop) : Q (Raise e) w -> wp (raise e) w Q.
Proof. exact (fun H => H). Qed.

Lemma wp_bind {A B} (m : M A) (k : A -> M B) w Q :
  wp m w (fun r w' => match r with
                      | Ok a => wp (k a) w' Q
                      | Raise e => Q (Raise e) w'
                      end) ->
  wp (bind m k) w Q.
Proof.
  unfold wp, bind. destruct (m w) as [[a|e] w']; simpl; auto.
Qed.

Lemma wp_conseq {A} (m : M A) w (Q Q' : result A -> World -> Prop) :
  wp m w Q -> (forall r w', Q r w' -> Q' r w') -> wp m w Q'.
Proof. unfold wp. auto. Qed.

Lemma wp_run {A} (m : M A) w (Q : result A -> World -> Prop) :
  wp m w Q -> exists r w', m w = (r, w') /\ Q r w'.
Proof.
  unfold wp. intros H. exists (fst (m w)), (snd (m w)). split; [|exact H].
  destruct (m w); reflexivity.
Qed.

Lemma bind_ok {A B} (m : M A) (k : A -> M B) w a w' :
  m w = (Ok a, w') -> bind m k w = k a w'.
Proof. intros E. unfold bind. rewrite E. reflexivity. Qed.

Lemma wp_try_except {A} (m h : M A) w Q :
  wp m w (fun r w' => match r with
                      | Ok a => Q (Ok a) w'
                      | Raise _ => wp h w' Q
                      end) ->
  wp (try_except m h) w Q.
Proof.
  unfold wp, try_except. destruct (m w) as [[a|e] w']; simpl; auto.
Qed.

Lemma wp_getitem_some {T} (k : Key T) v w Q :
  key_get k (session w) = Some v -> Q (Ok v) w -> wp (getitem k) w Q.
Proof. intros E H. unfold wp, getitem. rewrite E. exact H. Qed.

Lemma wp_setitem {T} (k : Key T) v w Q :
  Q (Ok tt) (mkWorld (put k v (session w)) (tape w)) -> wp (setitem k v) w Q.
Proof. exact (fun H => H). Qed.

Lemma wp_sget {T} (k : Key T) w Q :
  Q (Ok (key_get k (session w))) w -> wp (sget k) w Q.
Proof. exact (fun H => H). Qed.

Lemma wp_ensure_session s t Q :
  Q (Ok tt) (mkWorld (with_defaults s) t) -> wp ensure_session (mkWorld s t) Q.
Proof.
  intros H. unfold wp.
  destruct s as [[p|] [bw|] [uq|] [b|] [ti|] [ia|]]; exact H.
Qed.

Lemma wp_randbelow n w Q :
  (forall i t', (0 < n -> i < n) -> Q (Ok i) (mkWorld (session w) t')) ->
  wp (randbelow n) w Q.
Proof.
  intros H. unfold wp, randbelow. destruct w as [s [|x t]]; simpl.
  - apply H. auto.
  - apply H. intros. apply Nat.mod_upper_bound. lia.
Qed.

Lemma wp_list_item_ok {A} (l : list A) i w Q :
  i < length l ->
  (forall x, nth_error l i = Some x -> Q (Ok x) w) ->
  wp (list_item l i) w Q.
Proof.
  intros Hi H. unfold wp, list_item.
  destruct (nth_error l i) eqn:E; simpl; [auto|].
  apply nth_error_None in E. lia.
Qed.

Lemma wp_choice {A} (l : list A) w Q :
  l <> [] ->
  (forall x t', In x l -> Q (Ok x) (mkWorld (session w) t')) ->
  wp (choice l) w Q.
Proof.
  intros Hl H. destruct l as [|a l]; [congruence|].
  unfold choice. apply wp_bind. apply wp_randbelow. intros i t' Hi.
  apply wp_list_item_ok; [apply Hi; simpl; lia|].
  intros x Hx. apply H. eapply nth_error_In; eauto.
Qed.

Lemma wp_sample_from {A} (k : nat) : forall (pool : list A) live w Q,
  k <= live -> live <= length pool ->
  (forall r t', length r = k -> incl r pool -> Q (Ok r) (mkWorld (session w) t')) ->
  wp (sample_from pool live k) w Q.
Proof.
  induction k as [|k IH]; intros pool live w Q Hk Hl H.
  - simpl. apply wp_ret. destruct w. apply H; [reflexivity|intros x []].
  - cbn [sample_from]. apply wp_bind. apply wp_randbelow. intros j t' Hj.
    apply wp_bind. apply wp_list_item_ok; [specialize (Hj ltac:(lia)); lia|].
    intros x Hx. apply wp_bind. apply wp_list_item_ok; [lia|]. intros mv Hmv.
    apply wp_bind. apply IH; [lia|rewrite length_list_set; lia|].
    intros r t'' Hr Hincl. apply wp_ret. cbn [session]. apply H.
    + simpl. congruence.
    + intros y [<-|Hy]; [eapply nth_error_In; eauto|].
      apply Hincl in Hy. apply in_list_set in Hy as [->|Hy]; [eapply nth_error_In; eauto|exact Hy].
Qed.

Lemma wp_sample {A} (l : list A) k w Q :
  k <= length l ->
  (forall r t', length r = k -> incl r l -> Q (Ok r) (mkWorld (session w) t')) ->
  wp (sample l k) w Q.
Proof.
  intros Hk H. unfold sample.
  destruct (length l <? k) eqn:E; [apply Nat.ltb_lt in E; lia|].
  apply wp_sample_from; auto.
Qed.

Lemma wp_shuffle_from {A} i : forall (l : list A) w Q,
  (forall l' t', incl l' l -> Q (Ok l') (mkWorld (session w) t')) ->
  wp (shuffle_from i l) w Q.
Proof.
  induction i as [|i IH]; intros l w Q H.
  - simpl. apply wp_ret. destruct w. apply H. apply incl_refl.
  - cbn [shuffle_from]. apply wp_bind. apply wp_randbelow. intros j t' _.
    apply IH. intros l' t'' Hl'. apply H. intros x Hx. eapply in_swap; eauto.
Qed.

Lemma wp_shuffle {A} (l : list A) w Q :
  (forall l' t', incl l' l -> Q (Ok l') (mkWorld (session w) t')) ->
  wp (shuffle l) w Q.
Proof. apply wp_shuffle_from. Qed.

Lemma wp_random_lt_03 w Q :
  (forall (d : bool) t', Q (Ok d) (mkWorld (session w) t')) -> wp random_lt_03 w Q.
Proof.
  intros H. unfold random_lt_03. apply wp_bind, wp_randbelow. intros i t' _.
  apply wp_ret. apply H.
Qed.

Ltac wp_simpl :=
  cbn [session tape put key_put key_get
       k_poem_text k_banished_words k_used_quotes k_boredom k_to_imitate
       k_imitation_attempts poem_text banished_words used_quotes boredom
       to_imitate imitation_attempts list_item nth_error].

Ltac wp_det :=
  lazymatch goal with
  | |- wp (ret _) _ _ => apply wp_ret
  | |- wp (bind _ _) _ _ => apply wp_bind
  | |- wp (setitem _ _) _ _ => apply wp_setitem
  | |- wp (sget _) _ _ => apply wp_sget
  | |- wp (getitem _) _ _ => eapply wp_getitem_some; [reflexivity|]
  end;
  wp_simpl.

Ltac wp_pick H :=
  apply wp_bind, wp_choice; [try discriminate; try assumption|intros ? ? H]; wp_simpl.

Ltac stateless_fire :=
  right; eexists; split; [reflexivity|split; [|apply fired_stateless; reflexivity]].

Ltac with_keys s K :=
  destruct s as [[?p|] [?bw|] [?uq|] [?b|] [?ti|] [?ia|]]; try discriminate K.

(* ===================================================================== *)
(** ** The strategies *)
(* ===================================================================== *)

Lemma spec_adjectives text s t :
  wp (_question_about_adjectives text) (mkWorld s t)
     (call_post question_about_adjectives text s).
Proof.
  unfold _question_about_adjectives.
  destruct (negb (list_truthy (_extract_nouns text))) eqn:E.
  - apply wp_ret. left. auto.
  - apply list_truthy_nonempty in E.
    apply wp_bind, wp_choice; [exact E|]. intros noun t1 _.
    apply wp_bind. rewrite adjectives_length. apply wp_sample; [rewrite adjectives_length; simpl; lia|].
    intros r t2 Hr _. cbn [session].
    destruct r as [|a0 [|a1 [|]]]; try discriminate.
    apply wp_bind. apply wp_list_item_ok; [simpl; lia|]. intros x _.
    apply wp_bind. cbn [length Nat.ltb Nat.leb]. 
    apply wp_bind. apply wp_list_item_ok; [simpl; lia|]. intros y _.
    apply wp_ret. apply wp_ret. right. eexists. split; [reflexivity|].
    split; [reflexivity|apply fired_stateless; reflexivity].
Qed.

Lemma spec_verb text s t :
  wp (_question_about_verb text) (mkWorld s t) (call_post question_about_verb text s).
Proof.
  unfold _question_about_verb.
  destruct (negb (list_truthy (_extract_nouns text))) eqn:E.
  - apply wp_ret. left. auto.
  - apply list_truthy_nonempty in E. wp_pick Hn.
    wp_pick Hv; [apply verbs_nonempty|]. destruct x0 as [verb obj].
    wp_pick Hb. apply wp_ret. stateless_fire.
    apply str_truthy_append_r. reflexivity.
Qed.

Lemma spec_object text s t :
  wp (_question_about_object text) (mkWorld s t) (call_post question_about_object text s).
Proof.
  unfold _question_about_object.
  destruct (negb (list_truthy (_extract_nouns text))) eqn:E.
  - apply wp_ret. left. auto.
  - apply list_truthy_nonempty in E. wp_pick Hn.
    wp_pick Hv; [apply verbs_nonempty|]. destruct x0 as [verb obj].
    wp_pick Hb. apply wp_ret. stateless_fire.
    apply str_truthy_append_r. reflexivity.
Qed.

Lemma spec_word2vec text s t :
  wp (_word2vec_suggestions text) (mkWorld s t) (call_post word2vec_suggestions text s).
Proof.
  unfold _word2vec_suggestions.
  destruct (negb (list_truthy (_extract_nouns text))) eqn:E.
  - apply wp_ret. left. auto.
  - apply list_truthy_nonempty in E. wp_pick Hn.
    apply wp_bind. rewrite related_length.
    apply wp_sample; [rewrite related_length; simpl; lia|].
    intros r t2 _ _. apply wp_ret. stateless_fire.
    apply fold_dots_truthy. reflexivity.
Qed.

Lemma spec_stub text s t :
  wp (_suggest_quote_stub text) (mkWorld s t) (call_post suggest_quote_stub text s).
Proof.
  unfold _suggest_quote_stub. wp_pick Hs. wp_pick Hp. apply wp_ret.
  stateless_fire. apply str_truthy_append_r. reflexivity.
Qed.

Lemma wp_entities_of words : forall w Q,
  Forall (fun x => x <> EmptyString) words ->
  (forall es, incl es words -> Q (Ok es) w) ->
  wp (entities_of words) w Q.
Proof.
  induction words as [|x xs IH]; intros w Q Hne H.
  - apply wp_ret. apply H. apply incl_refl.
  - inversion Hne as [|? ? Hx Hxs]; subst. cbn [entities_of].
    destruct x as [|c x']; [congruence|].
    apply wp_bind, wp_ret. apply wp_bind. apply IH; [exact Hxs|].
    intros es Hes. apply wp_ret. apply H.
    destruct (isupper c && _).
    + intros y [<-|Hy]; [left; reflexivity|right; auto].
    + intros y Hy. right. auto.
Qed.

Lemma spec_entities text s t :
  wp (_comment_about_entities text) (mkWorld s t)
     (call_post comment_about_entities text s).
Proof.
  unfold _comment_about_entities.
  apply wp_bind, wp_entities_of; [apply split_nonempty_words|].
  intros es _. destruct (negb (list_truthy es)) eqn:E.
  - apply wp_ret. left. auto.
  - apply list_truthy_nonempty in E. wp_pick He.
    destruct (endswith_any _ _).
    + wp_pick Hq. apply wp_ret. stateless_fire.
      simpl in Hq. destruct Hq as [<-|[<-|[<-|[]]]]; reflexivity.
    + wp_pick Hq. apply wp_ret. stateless_fire.
      simpl in Hq. destruct Hq as [<-|[<-|[<-|[]]]]; reflexivity.
Qed.

Lemma wp_check_banished_loop bw words : forall s t,
  banished_words s = Some bw ->
  wp (check_banished_loop words) (mkWorld s t) (check_post bw words s).
Proof.
  induction words as [|x xs IH]; intros s t Hbw.
  - apply wp_ret. split; reflexivity.
  - cbn [check_banished_loop]. apply wp_bind.
    apply wp_getitem_some with (v := bw); [exact Hbw|].
    unfold check_post. cbn [find]. destruct (str_in x bw) eqn:E.
    + wp_pick Hr. apply wp_ret. split; [reflexivity|]. eexists; split; [exact Hr|reflexivity].
    + apply IH. exact Hbw.
Qed.

Lemma wp_check_banished_words text s t :
  wp (_check_banished_words text) (mkWorld s t)
     (fun r w' =>
        session w' = s /\
        match banished_words s with
        | Some (b :: bw) =>
            match first_banished (b :: bw) text with
            | Some x => exists resp, In resp banished_responses /\
                                     r = Ok (Some (banished_warning resp x))
            | None => r = Ok None
            end
        | _ => r = Ok None
        end).
Proof.
  unfold _check_banished_words. apply wp_bind, wp_sget. wp_simpl.
  destruct (banished_words s) as [[|b bw]|] eqn:E; cbn [opt_truthy list_truthy negb].
  - apply wp_ret. auto.
  - eapply wp_conseq; [apply wp_check_banished_loop; exact E|].
    intros r w' H. exact H.
  - apply wp_ret. auto.
Qed.

Lemma spec_check_banished text s t :
  wp (_check_banished_words text) (mkWorld s t)
     (call_post check_banished_words text s).
Proof.
  eapply wp_conseq; [apply wp_check_banished_words|].
  intros r w' [Hs H]. unfold call_post. rewrite Hs.
  destruct (banished_words s) as [[|b bw]|]; auto.
  destruct (first_banished (b :: bw) text); auto.
  destruct H as (resp & _ & ->). right. eexists. split; [reflexivity|].
  split; [apply banished_warning_truthy|apply fired_stateless; reflexivity].
Qed.

Lemma spec_suggest_quote text s t :
  keys_present s = true ->
  wp (_suggest_quote text) (mkWorld s t) (call_post suggest_quote text s).
Proof.
  intros K. destruct s as [[p|] [bw|] [uq|] [b|] [ti|] [ia|]]; try discriminate.
  unfold _suggest_quote. do 2 wp_det.
  set (s0 := mkSession _ _ _ _ _ _).
  assert (C : wp ((if list_truthy uq && (length MOCK_QUOTES <=? length uq)
                   then setitem k_used_quotes [] else ret tt))
                 (mkWorld s0 t)
                 (fun r w' => r = Ok tt /\ tape w' = t /\
                              session w' = put k_used_quotes (cycle uq) s0)).
  { unfold cycle. destruct (list_truthy uq && _); [apply wp_setitem|apply wp_ret];
      subst s0; auto. }
  apply wp_bind. eapply wp_conseq; [exact C|]. clear C.
  intros r [s1 t1] (-> & Ht & Hs). simpl in Ht, Hs. subst s1 t1. subst s0. wp_simpl.
  do 2 wp_det.
  destruct (negb (list_truthy (filter _ MOCK_QUOTES))) eqn:E.
  - (* nothing is available: only without a clearing *)
    apply wp_ret. left. split; [reflexivity|]. wp_simpl.
    unfold cycle in *. destruct (list_truthy uq && _); [discriminate E|reflexivity].
  - apply list_truthy_nonempty in E. wp_pick Hq. destruct x as [quote author].
    do 4 wp_det. wp_pick Hp. apply wp_ret.
    apply filter_In in Hq as [Hq1 Hq2]. apply negb_true_iff, pair_in_false in Hq2.
    right. eexists. split; [reflexivity|]. split.
    + apply str_truthy_append_r. reflexivity.
    + apply (fired_quote text (mkSession (Some p) (Some bw) (Some uq) (Some b) (Some ti) (Some ia)) uq (quote, author) x); auto.
Qed.

Lemma spec_word_banishment text s t :
  keys_present s = true ->
  wp (_word_banishment text) (mkWorld s t) (call_post word_banishment text s).
Proof.
  intros K. with_keys s K. unfold _word_banishment. do 2 wp_det.
  destruct (negb (list_truthy (filter _ (_extract_nouns text)))) eqn:E.
  - apply wp_ret. left. auto.
  - apply list_truthy_nonempty in E. wp_pick Hn. do 4 wp_det. wp_pick Hr.
    apply wp_ret. apply filter_In in Hn as [Hn1 Hn2].
    apply negb_true_iff, str_in_false in Hn2.
    right. eexists. split; [reflexivity|]. split.
    + reflexivity.
    + apply (fired_banish text (mkSession (Some p) (Some bw) (Some uq) (Some b)
                                  (Some ti) (Some ia)) bw x); auto.
Qed.

Lemma spec_authorial_imitation text s t :
  keys_present s = true ->
  wp (_authorial_imitation text) (mkWorld s t) (call_post authorial_imitation text s).
Proof.
  intros K. with_keys s K. unfold _authorial_imitation. do 2 wp_det.
  destruct ti as [|c ti']; cbn [opt_truthy str_truthy negb].
  - wp_pick Ha. do 5 wp_det. right. eexists. split; [reflexivity|]. split; [reflexivity|].
    apply (fired_challenge text (mkSession (Some p) (Some bw) (Some uq) (Some b)
                                   (Some EmptyString) (Some ia)) x); auto.
  - do 6 wp_det.
    assert (R : forall Q,
      (forall (d : bool) t', ((ia - 1 <=? 0)%Z = true -> d = true) ->
         Q (Ok d) (mkWorld (mkSession (Some p) (Some bw) (Some uq) (Some b)
                     (Some (String c ti')) (Some (ia - 1)%Z)) t')) ->
      wp (if (ia - 1 <=? 0)%Z then ret true else random_lt_03)
         (mkWorld (mkSession (Some p) (Some bw) (Some uq) (Some b)
                     (Some (String c ti')) (Some (ia - 1)%Z)) t) Q).
    { intros Q H. destruct (ia - 1 <=? 0)%Z.
      - apply wp_ret. apply H. auto.
      - apply wp_random_lt_03. intros d t'. apply H. discriminate. }
    apply wp_bind, R. intros d t' Hd. wp_simpl. destruct d.
    + wp_pick Hr. do 5 wp_det. right. eexists. split; [reflexivity|].
      split; [apply praises_truthy; exact Hr|].
      apply (fired_resolved text (mkSession (Some p) (Some bw) (Some uq) (Some b)
                                    (Some (String c ti')) (Some ia))
                            (String c ti') ia x); auto.
    + do 3 wp_det. right. eexists. split; [reflexivity|]. split; [reflexivity|].
      apply (fired_retry text (mkSession (Some p) (Some bw) (Some uq) (Some b)
                                 (Some (String c ti')) (Some ia))
                         (String c ti') ia); auto.
      destruct (ia - 1 <=? 0)%Z eqn:E; [specialize (Hd eq_refl); discriminate|].
      apply Z.leb_gt in E. exact E.
Qed.

Lemma spec_repetition text s t :
  keys_present s = true ->
  wp (_repetition_judgment text) (mkWorld s t) (call_post repetition_judgment text s).
Proof.
  intros K. with_keys s K. unfold _repetition_judgment. do 2 wp_det.
  destruct (b <? 3)%Z eqn:B; [apply wp_ret; left; auto|].
  apply Z.ltb_ge in B.
  destruct (3 <? length (split text)) eqn:L.
  - apply Nat.ltb_lt in L. destruct (split text) as [|w0 ws] eqn:W; [simpl in L; lia|].
    do 3 wp_det. destruct (String.eqb (lower w0) "i") eqn:I.
    + do 3 wp_det. right. eexists. split; [reflexivity|]. split; [reflexivity|].
      rewrite <- W.
      apply (fired_repetition text (mkSession (Some p) (Some bw) (Some uq) (Some b)
                                      (Some ti) (Some ia)) b); auto.
      * rewrite W. exact L.
      * rewrite W. simpl. apply String.eqb_eq. exact I.
    + wp_det. left. auto.
  - do 3 wp_det. left. auto.
Qed.

Lemma spec_recall text s t :
  keys_present s = true ->
  wp (_command_recall_noun text) (mkWorld s t) (call_post command_recall_noun text s).
Proof.
  intros K. with_keys s K. unfold _command_recall_noun. do 2 wp_det.
  destruct (b <? 5)%Z eqn:B; [apply wp_ret; left; auto|].
  apply Z.ltb_ge in B. do 2 wp_det.
  destruct (negb (list_truthy (filter _ (split p)))) eqn:E; [apply wp_ret; left; auto|].
  apply list_truthy_nonempty in E. do 2 wp_det. wp_pick Hn. wp_pick Hb. wp_pick He.
  apply wp_ret. right. eexists. split; [reflexivity|]. split.
  - apply str_truthy_append_r. reflexivity.
  - apply (fired_recall text (mkSession (Some p) (Some bw) (Some uq) (Some b)
                                (Some ti) (Some ia)) b); auto.
Qed.

Lemma spec_comparison text s t :
  keys_present s = true ->
  wp (_command_comparison text) (mkWorld s t) (call_post command_comparison text s).
Proof.
  intros K. with_keys s K. unfold _command_comparison. do 2 wp_det.
  destruct (b <? 5)%Z eqn:B; [apply wp_ret; left; auto|].
  apply Z.ltb_ge in B. do 2 wp_det.
  destruct (negb (list_truthy (_extract_nouns text))) eqn:E1;
    [apply wp_ret; left; auto|].
  destruct (negb (list_truthy (filter _ (split p)))) eqn:E2;
    [apply wp_ret; left; auto|]. cbn [orb].
  apply list_truthy_nonempty in E1, E2. do 2 wp_det.
  wp_pick Hc. wp_pick Ho. wp_pick Hq.
  apply wp_ret. right. eexists. split; [reflexivity|]. split.
  - reflexivity.
  - apply (fired_comparison text (mkSession (Some p) (Some bw) (Some uq) (Some b)
                                    (Some ti) (Some ia)) b); auto.
Qed.

(** Every strategy, called in a session that has its keys, returns [None]
    and leaves the session as it was, or fires. *)
Lemma call_spec f text s t :
  keys_present s = true ->
  wp (call f text) (mkWorld s t) (call_post f text s).
Proof.
  intros K. destruct f; cbn [call].
  - apply spec_adjectives.
  - apply spec_verb.
  - apply spec_object.
  - apply spec_word2vec.
  - apply spec_entities.
  - apply spec_suggest_quote; exact K.
  - apply spec_stub.
  - apply spec_authorial_imitation; exact K.
  - apply spec_word_banishment; exact K.
  - apply spec_check_banished.
  - apply spec_repetition; exact K.
  - apply spec_recall; exact K.
  - apply spec_comparison; exact K.
Qed.

Lemma call_cases f text s t :
  keys_present s = true ->
  (exists t', call f text (mkWorld s t) = (Ok None, mkWorld s t')) \/
  (exists resp w', call f text (mkWorld s t) = (Ok (Some resp), w') /\
                   answered text s f resp w').
Proof.
  intros K. pose proof (call_spec f text s t K) as H. unfold wp, call_post in H.
  destruct (call f text (mkWorld s t)) as [r w'] eqn:E. cbn [fst snd] in H.
  destruct H as [[-> Hs]|(resp & -> & Ht & Hf)].
  - left. exists (tape w'). destruct w'; simpl in *; subst; reflexivity.
  - right. exists resp, w'. split; [reflexivity|]. repeat split; auto.
    exists t. exact E.
Qed.

Lemma call_answer f text s t :
  keys_present s = true ->
  wp (call f text) (mkWorld s t) (call_outcome f text s).
Proof.
  intros K. unfold wp, call_outcome.
  destruct (call_cases f text s t K) as [(t' & ->)|(resp & w' & -> & A)].
  - left. auto.
  - right. exists resp. auto.
Qed.

(* ===================================================================== *)
(** ** The dispatcher *)
(* ===================================================================== *)

Lemma selected_incl fs gs text s r w' :
  incl fs gs -> selected fs text s r w' -> selected gs text s r w'.
Proof.
  intros I [H|(f & resp & Hf & H)]; [left; exact H|].
  right. exists f, resp. split; [apply I; exact Hf|exact H].
Qed.

Lemma selected_incl_cons f fs text s r w' :
  selected fs text s r w' -> selected (f :: fs) text s r w'.
Proof. apply selected_incl. intros x Hx. right. exact Hx. Qed.

Lemma try_responses_spec text s (K : keys_present s = true) fs : forall t,
  wp (try_responses fs text) (mkWorld s t) (selected fs text s).
Proof.
  induction fs as [|f fs IH]; intros t.
  - apply wp_ret. left. auto.
  - cbn [try_responses]. apply wp_bind, wp_try_except.
    eapply wp_conseq; [apply call_answer; exact K|].
    intros r [s' t'] [[-> Hs]|(resp & -> & A)].
    + simpl in Hs. subst s'. cbn [response_truthy opt_truthy].
      eapply wp_conseq; [apply IH|]. intros r w'. apply selected_incl_cons.
    + pose proof A as (Ht & _). cbn [response_truthy opt_truthy]. rewrite Ht.
      apply wp_ret. right. exists f, resp. split; [left; reflexivity|]. auto.
Qed.

Lemma try_responses_skips f fs text w :
  produced (fst (call f text w)) = false ->
  try_responses (f :: fs) text w = try_responses fs text (snd (call f text w)).
Proof.
  intros H. cbn [try_responses]. unfold bind, try_except.
  destruct (call f text w) as [[o|e] w1]; cbn [fst snd produced] in *.
  - rewrite H. reflexivity.
  - reflexivity.
Qed.

Lemma try_responses_fallback text fs : forall w,
  (forall f w0, In f fs -> produced (fst (call f text w0)) = false) ->
  fst (try_responses fs text w) = Ok (Some "Continue...").
Proof.
  induction fs as [|f fs IH]; intros w H; [reflexivity|].
  rewrite try_responses_skips by (apply H; left; reflexivity).
  apply IH. intros g w0 Hg. apply H. right. exact Hg.
Qed.

Lemma keys_present_bump text s : keys_present (bump text s) = true.
Proof. reflexivity. Qed.

Lemma analyze_text_spec text mode s t :
  str_truthy (strip text) = true ->
  wp (analyze_text text mode) (mkWorld s t) (selected (candidates mode) text (bump text s)).
Proof.
  intros NB. unfold analyze_text. rewrite NB. cbn [negb].
  apply wp_bind, wp_ensure_session. unfold with_defaults. do 9 wp_det.
  fold (bump text s).
  set (s1 := bump text s).
  assert (K : keys_present s1 = true) by reflexivity.
  (* the banished-word check *)
  assert (P : forall (c : bool) f t0,
            wp (if c then call f text else ret None) (mkWorld s1 t0)
               (call_outcome f text s1)).
  { intros c f t0. destruct c; [apply call_answer; exact K|].
    apply wp_ret. left. auto. }
  apply wp_bind. eapply wp_conseq; [apply (P _ check_banished_words)|].
  intros r [s' t1] [[-> Hs]|(resp & -> & A)].
  2:{ pose proof A as (Ht & _). cbn [response_truthy opt_truthy]. rewrite Ht.
      apply wp_ret. right. exists check_banished_words, resp.
      split; [left; reflexivity|]. auto. }
  simpl in Hs. subst s'. cbn [response_truthy opt_truthy str_truthy].
  wp_det. wp_det.
  (* the open challenge *)
  apply wp_bind. eapply wp_conseq; [apply (P _ authorial_imitation)|].
  intros r [s' t2] [[-> Hs]|(resp & -> & A)].
  2:{ pose proof A as (Ht & _). cbn [response_truthy opt_truthy]. rewrite Ht.
      apply wp_ret. right. exists authorial_imitation, resp.
      split; [right; left; reflexivity|]. auto. }
  simpl in Hs. subst s'. cbn [response_truthy opt_truthy str_truthy].
  (* the shuffled pool *)
  apply wp_bind, wp_shuffle. intros l' t3 Hl'. cbn [session].
  eapply wp_conseq; [apply try_responses_spec; exact K|].
  intros r w'. apply selected_incl. intros x Hx. right. right. apply Hl'. exact Hx.
Qed.

Lemma process_turn_blank text mode w :
  str_truthy (strip text) = false ->
  process_turn text mode w = (Ok "Please enter some text.", w).
Proof. intros H. unfold process_turn, analyze. rewrite H. reflexivity. Qed.

Lemma process_turn_spec text mode s t :
  str_truthy (strip text) = true ->
  wp (process_turn text mode) (mkWorld s t) (turn_outcome (strip text) mode s).
Proof.
  intros NB. unfold process_turn, analyze. rewrite NB. cbn [negb].
  apply wp_bind. eapply wp_conseq.
  - apply analyze_text_spec. rewrite strip_strip_truthy. exact NB.
  - intros r w' [[-> Hs]|(f & resp & Hf & -> & A)].
    + apply wp_ret. left. auto.
    + pose proof A as (Ht & _). apply wp_ret. cbn [response_truthy opt_truthy].
      rewrite Ht. right. exists f, resp. auto.
Qed.

Lemma process_turn_returns text mode w :
  exists r w', process_turn text mode w = (Ok r, w').
Proof.
  destruct w as [s t]. destruct (str_truthy (strip text)) eqn:NB.
  - pose proof (process_turn_spec text mode s t NB) as H. unfold wp in H.
    destruct (process_turn text mode (mkWorld s t)) as [r w'].
    cbn [fst snd] in H.
    destruct H as [[-> _]|(f & resp & _ & -> & _)]; eauto.
  - rewrite process_turn_blank by exact NB. eauto.
Qed.

Lemma reset_session_spec s t :
  reset (mkWorld s t)
  = (Ok tt, mkWorld (mkSession (Some EmptyString) (Some []) (Some []) (Some 0%Z)
                               (Some EmptyString) (Some 0%Z)) t).
Proof. reflexivity. Qed.

(* ===================================================================== *)
(** ** Reachable sessions *)
(* ===================================================================== *)

(** A property of sessions that holds of the empty and of the reset
    session, and that the first statements of [analyze_text] and every
    firing strategy keep, holds of every reachable session. *)
Lemma reachable_ind_fired (P : Session -> Prop) :
  P empty_session ->
  P (mkSession (Some EmptyString) (Some []) (Some []) (Some 0%Z)
               (Some EmptyString) (Some 0%Z)) ->
  (forall text s, P s -> P (bump text s)) ->
  (forall text s f resp s', keys_present s = true -> P s ->
                            fired text s f resp s' -> P s') ->
  forall s, reachable s -> P s.
Proof.
  intros Hnew Hreset Hbump Hfired s R.
  induction R as [|s text mode t R IH|s t R IH].
  - exact Hnew.
  - destruct (str_truthy (strip text)) eqn:NB.
    + pose proof (process_turn_spec text mode s t NB) as H. unfold wp in H.
      destruct H as [[_ ->]|(f & resp & _ & _ & (_ & F & _))].
      * apply Hbump. exact IH.
      * eapply Hfired; [|apply (Hbump (strip text)); exact IH|exact F]. reflexivity.
    + rewrite process_turn_blank by exact NB. exact IH.
  - rewrite reset_session_spec. exact Hreset.
Qed.

Ltac fired_cases F :=
  inversion F; subst; clear F;
  repeat match goal with
         | s : Session |- _ =>
             destruct s as [[?p|] [?bw|] [?uq|] [?b|] [?ti|] [?ia|]]
         end;
  try discriminate;
  cbn [put key_put key_get k_poem_text k_banished_words k_used_quotes k_boredom
       k_to_imitate k_imitation_attempts poem_text banished_words used_quotes
       boredom to_imitate imitation_attempts] in *.

Lemma reachable_banished : forall s, reachable s -> banished_ok s.
Proof.
  apply reachable_ind_fired; unfold banished_ok, banished_of.
  - simpl. split; [constructor|intros x []].
  - simpl. split; [constructor|intros x []].
  - intros text s H. exact H.
  - intros text s f resp s' K [N I] F. fired_cases F; cbn [or_default] in *;
      try (split; assumption).
    match goal with H : Some _ = Some _ |- _ => injection H as -> end.
    split; [apply NoDup_snoc; assumption|].
    apply incl_snoc; [assumption|eapply extract_nouns_common; eassumption].
Qed.



Lemma reachable_imitation : forall s, reachable s -> imitation_ok s.
Proof.
  apply reachable_ind_fired; unfold imitation_ok, target_set, attempts_of.
  - simpl. left. auto.
  - simpl. left. auto.
  - intros text s H. destruct s as [? ? ? ? [ti|] [ia|]]; simpl in *; exact H.
  - intros text s f resp s' K H F. fired_cases F;
      cbn [or_default opt_truthy str_truthy] in *; try exact H.
    + right. split; [apply authors_truthy; assumption|lia].
    + left. auto.
    + repeat match goal with H : Some _ = Some _ |- _ => injection H as -> end.
      destruct H as [[H _]|[_ H]]; [congruence|]. right. split; [assumption|lia].
Qed.

(* ===================================================================== *)
(** ** The banished-word check comes first (C1) *)
(* ===================================================================== *)

Lemma first_banished_strip bw text :
  first_banished bw (strip text) = first_banished bw text.
Proof. unfold first_banished. rewrite !split_lower, split_strip. reflexivity. Qed.

Lemma words_not_blank text x :
  In x (split (lower text)) -> str_truthy (strip text) = true.
Proof.
  rewrite strip_truthy, split_lower. destruct (split text); simpl; [intros []|reflexivity].
Qed.

Lemma banished_turn s t mode text bw x :
  banished_words s = Some bw ->
  first_banished bw text = Some x ->
  exists resp t',
    In resp banished_responses /\
    process_turn text mode (mkWorld s t)
    = (Ok (banished_warning resp x), mkWorld (bump (strip text) s) t').
Proof.
  intros Hbw F.
  assert (NB : str_truthy (strip text) = true).
  { unfold first_banished in F. apply find_some in F as [F _].
    eapply words_not_blank; eauto. }
  assert (Hne : exists b bw', bw = b :: bw').
  { destruct bw as [|b bw']; [|eauto]. unfold first_banished in F.
    apply find_some in F as [_ F]. discriminate. }
  destruct Hne as (b & bw' & ->).
  enough (W : wp (process_turn text mode) (mkWorld s t)
                 (fun r w' => exists resp, In resp banished_responses /\
                    r = Ok (banished_warning resp x) /\
                    session w' = bump (strip text) s)).
  { apply wp_run in W as (r & [s' t'] & E & resp & Hr & -> & Hs).
    simpl in Hs. subst s'. exists resp, t'. auto. }
  unfold process_turn, analyze. rewrite NB. cbn [negb].
  apply wp_bind. unfold analyze_text. rewrite strip_strip_truthy, NB. cbn [negb].
  apply wp_bind, wp_ensure_session. unfold with_defaults. do 10 wp_det.
  fold (bump (strip text) s).
  replace (or_default (banished_words s) []) with (b :: bw') by (rewrite Hbw; reflexivity).
  cbn [opt_truthy list_truthy].
  apply wp_bind. eapply wp_conseq; [apply wp_check_banished_words|].
  intros r [s' t'] [Hs H]. simpl in Hs. subst s'.
  unfold bump in H at 1. cbn [banished_words] in H. rewrite Hbw in H.
  cbn [or_default] in H. rewrite first_banished_strip, F in H.
  destruct H as (resp & Hr & ->).
  cbn [response_truthy opt_truthy]. rewrite banished_warning_truthy.
  do 2 apply wp_ret. cbn [response_truthy opt_truthy]. rewrite banished_warning_truthy.
  exists resp. auto.
Qed.




(* ===================================================================== *)
(** ** The imitation challenge closes within three invocations (C2) *)
(* ===================================================================== *)

Lemma imitation_step a n text s t :
  str_truthy a = true -> challenged s a n ->
  (exists resp, fst (_authorial_imitation text (mkWorld s t)) = Ok (Some resp)) /\
  (idle (imitate text s t) \/
   (challenged (imitate text s t) a (n - 1) /\ (0 < n - 1)%Z)).
Proof.
  intros Ha [Hti Hia]. destruct s as [p bw uq b ti ia]. simpl in Hti, Hia. subst ti ia.
  unfold imitate.
  enough (W : wp (_authorial_imitation text)
                 (mkWorld (mkSession p bw uq b (Some a) (Some n)) t)
                 (fun r w' => (exists resp, r = Ok (Some resp)) /\
                              (idle (session w') \/
                               (challenged (session w') a (n - 1) /\ (0 < n - 1)%Z)))).
  { exact W. }
  unfold _authorial_imitation. do 2 wp_det. cbn [opt_truthy]. rewrite Ha.
  cbn [negb]. do 6 wp_det.
  apply wp_bind.
  assert (R : forall w Q,
    (forall (d : bool) t', ((n - 1 <=? 0)%Z = true -> d = true) ->
                           Q (Ok d) (mkWorld (session w) t')) ->
    wp (if (n - 1 <=? 0)%Z then ret true else random_lt_03) w Q).
  { intros [s0 t0] Q H. destruct (n - 1 <=? 0)%Z.
    - apply wp_ret. apply H. auto.
    - apply wp_random_lt_03. intros d t'. apply H. discriminate. }
  apply R. intros d t' Hd. wp_simpl. destruct d.
  - wp_pick Hr. do 5 wp_det. split; [eauto|]. left. split; reflexivity.
  - do 3 wp_det. split; [eauto|]. right. split; [split; reflexivity|].
    destruct (n - 1 <=? 0)%Z eqn:E; [specialize (Hd eq_refl); discriminate|].
    apply Z.leb_gt in E. exact E.
Qed.

(** C2.  From a challenge with three attempts left, an invocation of the
    imitation strategy either closes the challenge (target cleared, attempts
    0) or leaves it open with one attempt less; the third invocation closes
    it whatever the generator draws.  The sessions of the later invocations
    are any that hold the challenge as the earlier one left it. *)
Theorem imitation_resolves_within_three a s1 s2 s3 text1 text2 text3 t1 t2 t3 :
  str_truthy a = true ->
  challenged s1 a 3 ->
  (idle (imitate text1 s1 t1) \/
   (challenged (imitate text1 s1 t1) a 2 /\
    (challenged s2 a 2 ->
     idle (imitate text2 s2 t2) \/
     (challenged (imitate text2 s2 t2) a 1 /\
      (challenged s3 a 1 -> idle (imitate text3 s3 t3)))))) /\
  (forall n s text t,
     challenged s a n ->
     idle (imitate text s t) \/
     (challenged (imitate text s t) a (n - 1) /\ (0 < n - 1)%Z)).
Proof.
  intros Ha C1. split.
  - destruct (imitation_step a 3 text1 s1 t1 Ha C1) as [_ [I|[C _]]]; [left; exact I|].
    right. split; [exact C|]. intros C2.
    destruct (imitation_step a 2 text2 s2 t2 Ha C2) as [_ [I|[C' _]]]; [left; exact I|].
    right. split; [exact C'|]. intros C3.
    destruct (imitation_step a 1 text3 s3 t3 Ha C3) as [_ [I|[_ L]]]; [exact I|lia].
  - intros n s text t C. apply (imitation_step a n text s t Ha C).
Qed.

Lemma imitation_resolves_within_three_witness :
  (idle (imitate "a" (challenge_session 3) [5]) \/
   (challenged (imitate "a" (challenge_session 3) [5]) "yeats" 2 /\
    (challenged (challenge_session 2) "yeats" 2 ->
     idle (imitate "b" (challenge_session 2) [7]) \/
     (challenged (imitate "b" (challenge_session 2) [7]) "yeats" 1 /\
      (challenged (challenge_session 1) "yeats" 1 ->
       idle (imitate "c" (challenge_session 1) [9])))))) /\
  (forall n s text t,
     challenged s "yeats" n ->
     idle (imitate text s t) \/
     (challenged (imitate text s t) "yeats" (n - 1) /\ (0 < n - 1)%Z)).
Proof.
  apply (imitation_resolves_within_three "yeats" (challenge_session 3)
           (challenge_session 2) (challenge_session 1) "a" "b" "c" [5] [7] [9]).
  - reflexivity.
  - split; reflexivity.
Defined.

(* ===================================================================== *)
(** ** Quotes are not repeated within a cycle (C3) *)
(* ===================================================================== *)






(* ===================================================================== *)
(** ** A turn always answers (C4) *)
(* ===================================================================== *)

(** C4.  [process_turn] returns a string for every text, mode and store; in
    the loop over the shuffled pool a strategy that raises is passed over and
    the rest of the pool is tried in the store it left; when no strategy of
    the pool produces a response the loop answers "Continue...". *)
Theorem process_turn_never_fails text mode w f fs text0 w0 e w1 :
  call f text0 w0 = (Raise e, w1) ->
  (exists r w', process_turn text mode w = (Ok r, w')) /\
  try_responses (f :: fs) text0 w0 = try_responses fs text0 w1 /\
  (forall gs text1 w2,
     (forall g w3, In g gs -> produced (fst (call g text1 w3)) = false) ->
     fst (try_responses gs text1 w2) = Ok (Some "Continue...")).
Proof.
  intros E. split; [apply process_turn_returns|]. split.
  - rewrite try_responses_skips; rewrite E; reflexivity.
  - intros gs text1 w2. apply try_responses_fallback.
Qed.

Lemma process_turn_never_fails_witness :
  (exists r w', process_turn "I love the forest" "mixed" (mkWorld empty_session [])
                = (Ok r, w')) /\
  try_responses [suggest_quote; suggest_quote_stub] "x" (mkWorld empty_session [])
  = try_responses [suggest_quote_stub] "x" (mkWorld empty_session []) /\
  (forall gs text1 w2,
     (forall g w3, In g gs -> produced (fst (call g text1 w3)) = false) ->
     fst (try_responses gs text1 w2) = Ok (Some "Continue...")).
Proof.
  apply (process_turn_never_fails "I love the forest" "mixed"
           (mkWorld empty_session []) suggest_quote [suggest_quote_stub] "x"
           (mkWorld empty_session []) (KeyError "used_quotes")
           (mkWorld empty_session [])).
  reflexivity.
Defined.

(* ===================================================================== *)
(** ** Blank turns (C5) *)
(* ===================================================================== *)



(* ===================================================================== *)
(** ** Boredom (C6) *)
(* ===================================================================== *)





(* ===================================================================== *)
(** ** Target and attempts (C7) *)
(* ===================================================================== *)

(** C7.  In every session reachable from a new one by turns and resets,
    exactly one of "no imitation target" and "attempts remaining > 0"
    holds: a target is set if and only if the attempts are positive, and
    there is no target if and only if the attempts are 0. *)
Theorem imitation_fields_agree s :
  reachable s ->
  ((target_set s = false /\ ~ (0 < attempts_of s)%Z) \/
   (target_set s = true /\ (0 < attempts_of s)%Z)) /\
  (target_set s = true <-> (0 < attempts_of s)%Z) /\
  (target_set s = false <-> attempts_of s = 0%Z).
Proof.
  intros R. destruct (reachable_imitation s R) as [[H1 H2]|[H1 H2]].
  - split; [left; split; [exact H1|lia]|]. split; split; intros; try congruence; lia.
  - split; [right; split; [exact H1|lia]|]. split; split; intros; try congruence; lia.
Qed.

Lemma imitation_fields_agree_witness :
  let s := session (snd (process_turn "I love the forest" "mixed"
                           (mkWorld empty_session [0]))) in
  ((target_set s = false /\ ~ (0 < attempts_of s)%Z) \/
   (target_set s = true /\ (0 < attempts_of s)%Z)) /\
  (target_set s = true <-> (0 < attempts_of s)%Z) /\
  (target_set s = false <-> attempts_of s = 0%Z).
Proof.
  apply (imitation_fields_agree
           (session (snd (process_turn "I love the forest" "mixed"
                            (mkWorld empty_session [0]))))).
  apply reachable_turn. apply reachable_new.
Defined.

(* ===================================================================== *)
(** ** The pool of the mixed mode (C8) *)
(* ===================================================================== *)

(** C8 fails as stated: two strategies of the group pools are missing from
    the pool of "mixed". *)
Lemma mixed_pool_is_not_the_union :
  (In comment_about_entities (pool_of "elaboration") /\
   ~ In comment_about_entities (pool_of "mixed")) /\
  (In suggest_quote_stub (pool_of "imitation") /\
   ~ In suggest_quote_stub (pool_of "mixed")).
Proof.
  split; (split; [vm_compute; tauto|]); vm_compute; intuition discriminate.
Qed.

Lemma pool_of_unnamed mode : ~ In mode named_modes -> pool_of mode = mixed_functions.
Proof.
  intros H. unfold pool_of, mode_functions. cbn [dict_get].
  repeat match goal with
         | |- context [String.eqb mode ?m] =>
             destruct (String.eqb_spec mode m) as [->|_];
               [exfalso; apply H; simpl; tauto|]
         end.
  reflexivity.
Qed.

Lemma unnamed_not_imitation mode :
  ~ In mode named_modes -> str_in mode ["imitation"; "mixed"] = false.
Proof.
  intros H. destruct (str_in mode ["imitation"; "mixed"]) eqn:E; [|reflexivity].
  apply str_in_iff in E. exfalso. apply H. simpl in *. tauto.
Qed.

(** C8, as the code has it.  A mode that is none of the five named ones gets
    the pool of "mixed", and two such modes answer every turn alike.  The
    pool of "mixed" holds every strategy of the four other pools except
    [_comment_about_entities] and [_suggest_quote_stub], and nothing else. *)
Theorem mixed_pool_and_fallback mode mode' :
  ~ In mode named_modes -> ~ In mode' named_modes ->
  pool_of mode = pool_of "mixed" /\
  (forall group f,
     In group group_modes -> In f (pool_of group) ->
     f = comment_about_entities \/ f = suggest_quote_stub \/
     In f (pool_of "mixed")) /\
  (forall f, In f (pool_of "mixed") ->
             exists group, In group group_modes /\ In f (pool_of group)) /\
  (forall text w, process_turn text mode w = process_turn text mode' w).
Proof.
  intros H H'. split; [apply pool_of_unnamed; exact H|]. split; [|split].
  - intros group f Hg Hf. simpl in Hg.
    destruct Hg as [<-|[<-|[<-|[<-|[]]]]]; vm_compute in Hf; vm_compute;
      repeat (destruct Hf as [<-|Hf]; [tauto|]); destruct Hf.
  - intros f Hf. vm_compute in Hf.
    repeat (destruct Hf as [<-|Hf];
            [first [ exists "elaboration"; split; vm_compute; tauto
                   | exists "imitation"; split; vm_compute; tauto
                   | exists "variation"; split; vm_compute; tauto
                   | exists "backtracking"; split; vm_compute; tauto ]|]).
    destruct Hf.
  - intros text w. unfold process_turn, analyze, analyze_text.
    rewrite (pool_of_unnamed mode H), (pool_of_unnamed mode' H').
    rewrite (unnamed_not_imitation mode H), (unnamed_not_imitation mode' H').
    reflexivity.
Qed.

Lemma mixed_pool_and_fallback_witness :
  pool_of "epic" = pool_of "mixed" /\
  (forall group f,
     In group group_modes -> In f (pool_of group) ->
     f = comment_about_entities \/ f = suggest_quote_stub \/
     In f (pool_of "mixed")) /\
  (forall f, In f (pool_of "mixed") ->
             exists group, In group group_modes /\ In f (pool_of group)) /\
  (forall text w, process_turn text "epic" w = process_turn text "lyric" w).
Proof.
  apply (mixed_pool_and_fallback "epic" "lyric");
    vm_compute; intuition discriminate.
Defined.

(* ===================================================================== *)
(** ** The style complaint (C9) *)
(* ===================================================================== *)




(* ===================================================================== *)
(** ** Banished words (C10) *)
(* ===================================================================== *)

Lemma banishment_step s text t resp w' :
  keys_present s = true ->
  _word_banishment text (mkWorld s t) = (Ok (Some resp), w') ->
  exists n, In n (_extract_nouns text) /\ ~ In n (banished_of s) /\
            banished_of (session w') = banished_of s ++ [n].
Proof.
  intros K E. pose proof (spec_word_banishment text s t K) as H.
  unfold wp in H. rewrite E in H. cbn [fst snd] in H.
  destruct H as [[H _]|(resp' & _ & _ & F)]; [discriminate H|].
  inversion F as [f r Hs| |bw n r Hbw Hn Hnot| | | | | |]; subst.
  - discriminate Hs.
  - exists n. unfold banished_of. rewrite Hbw.
    cbn [banished_words or_default]. auto.
Qed.

(** C10.  In every reachable session the banished words are pairwise
    distinct words of the 24-word vocabulary of [_extract_nouns]; a call of
    [_word_banishment] that answers appends one noun of the text that was
    not banished yet. *)
Theorem banished_words_are_distinct_nouns s :
  reachable s ->
  length common_nouns = 24 /\
  NoDup (banished_of s) /\
  (forall word, In word (banished_of s) -> In word common_nouns) /\
  (forall text t resp w',
     keys_present s = true ->
     _word_banishment text (mkWorld s t) = (Ok (Some resp), w') ->
     exists n, In n (_extract_nouns text) /\ ~ In n (banished_of s) /\
               banished_of (session w') = banished_of s ++ [n]).
Proof.
  intros R. destruct (reachable_banished s R) as [N I].
  split; [reflexivity|]. split; [exact N|]. split; [exact I|].
  intros text t resp w'. apply banishment_step.
Qed.

Lemma banished_words_are_distinct_nouns_witness :
  let s := session (snd (process_turn "I love the forest" "variation"
                           (mkWorld empty_session []))) in
  length common_nouns = 24 /\
  NoDup (banished_of s) /\
  (forall word, In word (banished_of s) -> In word common_nouns) /\
  (forall text t resp w',
     keys_present s = true ->
     _word_banishment text (mkWorld s t) = (Ok (Some resp), w') ->
     exists n, In n (_extract_nouns text) /\ ~ In n (banished_of s) /\
               banished_of (session w') = banished_of s ++ [n]).
Proof.
  apply (banished_words_are_distinct_nouns
           (session (snd (process_turn "I love the forest" "variation"
                            (mkWorld empty_session []))))).
  apply reachable_turn. apply reachable_new.
Defined.

(* ===================================================================== *)
(** ** Strings: blanks, case and concatenation *)
(* ===================================================================== *)

Lemma lower_char_idem c : lower_char (lower_char c) = lower_char c.
Proof. destruct c as [[] [] [] [] [] [] [] []]; reflexivity. Qed.

Lemma lower_idem s : lower (lower s) = lower s.
Proof. induction s as [|c s IH]; simpl; [reflexivity|]. rewrite lower_char_idem, IH. reflexivity. Qed.

Lemma split_head_word c s : isspace c = false -> split (String c s) <> [].
Proof.
  intros E. simpl. rewrite E. destruct s as [|c' s']; [discriminate|].
  destruct (isspace c'); [discriminate|]. destruct (split (String c' s')); discriminate.
Qed.

Lemma split_cons_word x y r :
  isspace x = false ->
  split (String x (String y r))
  = if isspace y then String x EmptyString :: split (String y r)
    else match split (String y r) with
         | w :: ws => String x w :: ws
         | [] => [String x EmptyString]
         end.
Proof. intros E. cbn [split]. rewrite E. reflexivity. Qed.

Lemma split_app_blank a c b :
  isspace c = true -> split (a +s+ String c b) = split a ++ split b.
Proof.
  intros Hc. induction a as [|x a IH].
  - simpl. rewrite Hc. reflexivity.
  - change ((String x a) +s+ String c b) with (String x (a +s+ String c b)).
    destruct (isspace x) eqn:Ex.
    + cbn [split]. rewrite Ex. exact IH.
    + destruct a as [|y a'].
      * simpl. rewrite Ex, Hc. reflexivity.
      * change ((String y a') +s+ String c b) with (String y (a' +s+ String c b)) in *.
        rewrite !split_cons_word by exact Ex. rewrite IH.
        destruct (isspace y) eqn:Ey; [reflexivity|].
        pose proof (split_head_word y a' Ey) as Hne.
        destruct (split (String y a')) as [|w ws]; [congruence|]. reflexivity.
Qed.




(* ===================================================================== *)
(** ** The turn, case by case *)
(* ===================================================================== *)

Lemma ensure_session_eq s t :
  ensure_session (mkWorld s t) = (Ok tt, mkWorld (with_defaults s) t).
Proof. destruct s as [[p|] [bw|] [uq|] [b|] [ti|] [ia|]]; reflexivity. Qed.

Lemma check_banished_loop_none bw words : forall s t,
  banished_words s = Some bw ->
  find (fun word => str_in word bw) words = None ->
  check_banished_loop words (mkWorld s t) = (Ok None, mkWorld s t).
Proof.
  induction words as [|x xs IH]; intros s t Hbw F; [reflexivity|].
  cbn [find] in F. destruct (str_in x bw) eqn:E; [discriminate|].
  cbn [check_banished_loop].
  rewrite (bind_ok (getitem k_banished_words) _ (mkWorld s t) bw (mkWorld s t))
    by (unfold getitem; cbn [session key_get k_banished_words]; rewrite Hbw; reflexivity).
  rewrite E. apply IH; assumption.
Qed.

Lemma check_banished_none text s t :
  first_banished (banished_of s) text = None ->
  _check_banished_words text (mkWorld s t) = (Ok None, mkWorld s t).
Proof.
  intros F. unfold _check_banished_words.
  rewrite (bind_ok (sget k_banished_words) _ (mkWorld s t) (banished_words s)
             (mkWorld s t) eq_refl).
  destruct (banished_words s) as [[|b bw]|] eqn:E; cbn [opt_truthy list_truthy negb];
    try reflexivity.
  apply check_banished_loop_none with (bw := b :: bw); [exact E|].
  unfold first_banished, banished_of in F. rewrite E in F. exact F.
Qed.

Lemma authorial_always text s t :
  keys_present s = true ->
  exists resp w', _authorial_imitation text (mkWorld s t) = (Ok (Some resp), w') /\
                  answered text s authorial_imitation resp w'.
Proof.
  intros K.
  destruct (call_cases authorial_imitation text s t K) as [(t' & E)|H]; [|exact H].
  exfalso. cbn [call] in E. revert E.
  destruct s as [[p|] [bw|] [uq|] [b|] [ti|] [ia|]]; try discriminate K.
  (* the call never returns [None] *)
  assert (N : wp (_authorial_imitation text)
                 (mkWorld (mkSession (Some p) (Some bw) (Some uq) (Some b)
                                     (Some ti) (Some ia)) t)
                 (fun r _ => r <> Ok None)).
  { unfold _authorial_imitation. do 2 wp_det.
    destruct ti as [|c ti']; cbn [opt_truthy str_truthy negb].
    - wp_pick Ha. do 5 wp_det. discriminate.
    - do 6 wp_det. apply wp_bind.
      destruct (ia - 1 <=? 0)%Z.
      + apply wp_ret. wp_pick Hr. do 5 wp_det. discriminate.
      + apply wp_random_lt_03. intros d t'0. wp_simpl. destruct d.
        * wp_pick Hr. do 5 wp_det. discriminate.
        * do 3 wp_det. discriminate. }
  unfold wp in N. intros E. rewrite E in N. apply N. reflexivity.
Qed.

(** The body of [analyze_text] once the text is known not to be blank and
    to hold no banished word. *)
Lemma analyze_text_unfold text mode s t :
  str_truthy (strip text) = true ->
  first_banished (banished_of s) text = None ->
  analyze_text text mode (mkWorld s t)
  = if target_set s && str_in mode ["imitation"; "mixed"]
    then _authorial_imitation text (mkWorld (bump text s) t)
    else (response_types <- shuffle (pool_of mode) ;;
          try_responses response_types text) (mkWorld (bump text s) t).
Proof.
  intros NB F. unfold analyze_text. rewrite NB. cbn [negb].
  rewrite (bind_ok ensure_session _ _ tt _ (ensure_session_eq s t)).
  set (s0 := with_defaults s).
  rewrite (bind_ok (getitem k_poem_text) _ (mkWorld s0 t)
             (or_default (poem_text s) EmptyString) (mkWorld s0 t) eq_refl).
  rewrite (bind_ok (setitem k_poem_text _) _ (mkWorld s0 t) tt
             (mkWorld (put k_poem_text
                         (or_default (poem_text s) EmptyString +s+ nl +s+ text) s0) t)
             eq_refl).
  set (s01 := put k_poem_text _ s0).
  rewrite (bind_ok (getitem k_boredom) _ (mkWorld s01 t)
             (or_default (boredom s) 0%Z) (mkWorld s01 t) eq_refl).
  rewrite (bind_ok (setitem k_boredom _) _ (mkWorld s01 t) tt
             (mkWorld (bump text s) t) eq_refl).
  set (s1 := bump text s).
  rewrite (bind_ok (sget k_banished_words) _ (mkWorld s1 t)
             (Some (banished_of s)) (mkWorld s1 t) eq_refl).
  assert (B : (if opt_truthy list_truthy (Some (banished_of s))
               then _check_banished_words text else ret None) (mkWorld s1 t)
              = (Ok None, mkWorld s1 t)).
  { destruct (opt_truthy _ _); [|reflexivity]. apply check_banished_none. exact F. }
  rewrite (bind_ok _ _ (mkWorld s1 t) None (mkWorld s1 t) B).
  cbn [response_truthy opt_truthy].
  rewrite (bind_ok (sget k_to_imitate) _ (mkWorld s1 t)
             (Some (or_default (to_imitate s) EmptyString)) (mkWorld s1 t) eq_refl).
  replace (opt_truthy str_truthy (Some (or_default (to_imitate s) EmptyString)))
    with (target_set s)
    by (unfold target_set; destruct (to_imitate s); reflexivity).
  destruct (target_set s && str_in mode ["imitation"; "mixed"]).
  - destruct (authorial_always text s1 t eq_refl) as (resp & w' & E & (Ht & _)).
    rewrite (bind_ok _ _ (mkWorld s1 t) (Some resp) w' E).
    cbn [response_truthy opt_truthy]. rewrite Ht. rewrite E. reflexivity.
  - rewrite (bind_ok (ret None) _ (mkWorld s1 t) None (mkWorld s1 t) eq_refl).
    reflexivity.
Qed.

Lemma first_banished_of_absent s text x :
  first_banished (banished_of s) text = Some x ->
  exists bw, banished_words s = Some bw /\ first_banished bw text = Some x.
Proof.
  unfold banished_of. destruct (banished_words s) as [bw|]; [eauto|].
  unfold first_banished. intros F. apply find_some in F as [_ F]. discriminate.
Qed.

Lemma process_turn_cases text mode s t :
  str_truthy (strip text) = true ->
  wp (process_turn text mode) (mkWorld s t) (turn_cases (strip text) mode s).
Proof.
  intros NB. unfold wp, turn_cases.
  destruct (first_banished (banished_of s) (strip text)) as [x|] eqn:F.
  - left. destruct (first_banished_of_absent s _ x F) as (bw & Hbw & F').
    rewrite first_banished_strip in F'.
    destruct (banished_turn s t mode text bw x Hbw F') as (resp & t' & _ & ->).
    split; [exists x, resp; split; reflexivity|reflexivity].
  - right. unfold process_turn, analyze. rewrite NB. cbn [negb].
    assert (NB' : str_truthy (strip (strip text)) = true)
      by (rewrite strip_strip_truthy; exact NB).
    pose proof (analyze_text_unfold (strip text) mode s t NB' F) as E.
    destruct (target_set s && str_in mode ["imitation"; "mixed"]) eqn:C.
    + left. apply andb_true_iff in C as [C1 C2].
      destruct (authorial_always (strip text) (bump (strip text) s) t eq_refl)
        as (resp & w' & Ea & A).
      rewrite Ea in E. rewrite (bind_ok _ _ _ _ _ E). pose proof A as (Ht & _).
      cbn [ret fst snd response_truthy opt_truthy]. rewrite Ht.
      repeat (split; [reflexivity || assumption|]). exists resp. auto.
    + right. split; [reflexivity|]. split; [reflexivity|].
      assert (W : wp (analyze_text (strip text) mode) (mkWorld s t)
                     (selected (pool_of mode) (strip text) (bump (strip text) s))).
      { unfold wp. rewrite E. apply wp_bind, wp_shuffle. intros l' t3 Hl'.
        cbn [session]. eapply wp_conseq;
          [apply try_responses_spec; reflexivity|].
        intros r w'. apply selected_incl. exact Hl'. }
      unfold wp in W. unfold bind.
      destruct (analyze_text (strip text) mode (mkWorld s t)) as [r w'].
      cbn [fst snd] in W.
      destruct W as [[-> Hs]|(f & resp & Hf & -> & A)].
      * left. cbn. auto.
      * right. pose proof A as (Ht & _). cbn [ret fst snd response_truthy opt_truthy].
        rewrite Ht. exists f, resp. auto.
Qed.

Lemma fired_stateless_same text s f resp s' :
  stateless f = true -> fired text s f resp s' -> s' = s.
Proof. intros S F. inversion F; subst; try discriminate S; reflexivity. Qed.

(* ===================================================================== *)
(** ** The handlers [/reset], [/status] and [/analyze] *)
(* ===================================================================== *)

(** X1.  The [/reset] handler leaves the default session whatever the session
    was, [/status] then reports the defaults, and the next turn on a text
    that is not blank runs as in the session of a new client. *)
Theorem reset_gives_a_new_session s t text mode t' :
  str_truthy (strip text) = true ->
  reset (mkWorld s t) = (Ok tt, mkWorld default_session t) /\
  status (mkWorld default_session t)
  = (Ok (mkStatus [] EmptyString 0 0%Z), mkWorld default_session t) /\
  process_turn text mode (mkWorld default_session t')
  = process_turn text mode (mkWorld empty_session t').
Proof.
  intros NB. split; [reflexivity|]. split; [reflexivity|].
  assert (E : analyze_text (strip text) mode (mkWorld default_session t')
              = analyze_text (strip text) mode (mkWorld empty_session t')).
  { unfold analyze_text. rewrite strip_strip_truthy, NB. cbn [negb].
    rewrite !(bind_ok ensure_session _ _ tt _ (ensure_session_eq _ _)).
    reflexivity. }
  unfold process_turn, analyze. rewrite NB. cbn [negb].
  unfold bind. rewrite E. reflexivity.
Qed.

Lemma reset_gives_a_new_session_witness :
  reset (mkWorld forest_session [1]) = (Ok tt, mkWorld default_session [1]) /\
  status (mkWorld default_session [1])
  = (Ok (mkStatus [] EmptyString 0 0%Z), mkWorld default_session [1]) /\
  process_turn "the sea" "mixed" (mkWorld default_session [2])
  = process_turn "the sea" "mixed" (mkWorld empty_session [2]).
Proof.
  apply (reset_gives_a_new_session forest_session [1] "the sea" "mixed" [2]).
  reflexivity.
Defined.

(** X2.  [ensure_session] never raises, keeps every key that is present with its
    value and gives the absent ones their defaults; a second call changes
    nothing, and a session that has its six keys is left as it is. *)
Theorem ensure_session_fills_once s t :
  ensure_session (mkWorld s t) = (Ok tt, mkWorld (with_defaults s) t) /\
  (ensure_session ;;; ensure_session) (mkWorld s t) = ensure_session (mkWorld s t) /\
  keys_present (with_defaults s) = true /\
  (forall p, poem_text s = Some p -> poem_text (with_defaults s) = Some p) /\
  (forall bw, banished_words s = Some bw ->
              banished_words (with_defaults s) = Some bw) /\
  (forall uq, used_quotes s = Some uq -> used_quotes (with_defaults s) = Some uq) /\
  (forall b, boredom s = Some b -> boredom (with_defaults s) = Some b) /\
  (forall a, to_imitate s = Some a -> to_imitate (with_defaults s) = Some a) /\
  (forall n, imitation_attempts s = Some n ->
             imitation_attempts (with_defaults s) = Some n) /\
  (keys_present s = true -> with_defaults s = s).
Proof.
  split; [apply ensure_session_eq|]. split.
  - rewrite (bind_ok ensure_session _ _ tt _ (ensure_session_eq s t)).
    rewrite !ensure_session_eq. reflexivity.
  - split; [reflexivity|].
    repeat (split; [intros v E; cbn; rewrite E; reflexivity|]).
    intros K. destruct s as [[p|] [bw|] [uq|] [b|] [ti|] [ia|]];
      try discriminate K; reflexivity.
Qed.












(** X6.  The response of a turn is never the empty string. *)
Theorem process_turn_response_is_not_empty text mode w :
  exists r w', process_turn text mode w = (Ok r, w') /\ str_truthy r = true.
Proof.
  destruct w as [s t]. destruct (str_truthy (strip text)) eqn:NB.
  - pose proof (process_turn_spec text mode s t NB) as H. unfold wp in H.
    destruct (process_turn text mode (mkWorld s t)) as [r w']. cbn [fst snd] in H.
    destruct H as [[-> _]|(f & resp & _ & -> & (Ht & _))]; eauto.
  - rewrite process_turn_blank by exact NB. eauto.
Qed.

(** X7.  A reachable session is the empty dictionary of a new client or has its
    six keys: no turn leaves a session half filled. *)
Theorem reachable_sessions_are_complete s :
  reachable s -> s = empty_session \/ keys_present s = true.
Proof.
  revert s. apply reachable_ind_fired.
  - left. reflexivity.
  - right. reflexivity.
  - intros text s _. right. reflexivity.
  - intros text s f resp s' K _ F. right.
    inversion F; subst; try exact K;
      destruct s as [[?|] [?|] [?|] [?|] [?|] [?|]]; try discriminate K;
      reflexivity.
Qed.

Lemma reachable_sessions_are_complete_witness :
  session (snd (process_turn "the sea" "mixed" (mkWorld empty_session [3])))
  = empty_session \/
  keys_present (session (snd (process_turn "the sea" "mixed"
                                (mkWorld empty_session [3])))) = true.
Proof.
  apply (reachable_sessions_are_complete
           (session (snd (process_turn "the sea" "mixed"
                            (mkWorld empty_session [3]))))).
  apply reachable_turn. apply reachable_new.
Defined.

(* ===================================================================== *)
(** ** What a turn writes in each mode *)
(* ===================================================================== *)

Lemma pool_stateless mode :
  In mode ["elaboration"] ->
  forall f, In f (pool_of mode) -> stateless f = true.
Proof.
  intros [<-|[]] f Hf. vm_compute in Hf.
  repeat (destruct Hf as [<-|Hf]; [reflexivity|]). destruct Hf.
Qed.

(** X8.  In the mode "elaboration" a turn on a text that is not blank writes
    nothing but the poem and the boredom counter: the banished words, the
    used quotes and the imitation challenge are as before, and boredom is
    one higher. *)
Theorem elaboration_turn_only_records_the_text s text t :
  str_truthy (strip text) = true ->
  session (snd (process_turn text "elaboration" (mkWorld s t)))
  = bump (strip text) s.
Proof.
  intros NB. pose proof (process_turn_cases text "elaboration" s t NB) as H.
  unfold wp, turn_cases in H.
  destruct H as [[_ H]|[(_ & _ & C & _)|(_ & _ & [[_ H]|(f & resp & Hf & _ & (_ & F & _))])]].
  - exact H.
  - discriminate C.
  - exact H.
  - apply (fired_stateless_same _ _ _ _ _ (pool_stateless "elaboration"
             (or_introl eq_refl) f Hf) F).
Qed.

Lemma elaboration_turn_only_records_the_text_witness :
  session (snd (process_turn "A wolf hunts" "elaboration"
                  (mkWorld (challenge_session 2) [4; 1])))
  = bump (strip "A wolf hunts") (challenge_session 2).
Proof.
  apply (elaboration_turn_only_records_the_text (challenge_session 2)
           "A wolf hunts" [4; 1]).
  reflexivity.
Defined.

Lemma fired_in_backtracking text s f resp s' :
  In f (pool_of "backtracking") -> fired text s f resp s' ->
  s' = put k_boredom 0%Z s.
Proof.
  intros Hf F. vm_compute in Hf. destruct Hf as [<-|[<-|[]]];
    inversion F; subst; try discriminate; reflexivity.
Qed.

(** X9.  In the mode "backtracking" a turn leaves the session of the turn's first
    statements, or that session with boredom set to 0: banished words, used
    quotes and the challenge are never written. *)
Theorem backtracking_turn_only_resets_boredom s text t :
  str_truthy (strip text) = true ->
  let s' := session (snd (process_turn text "backtracking" (mkWorld s t))) in
  s' = bump (strip text) s \/ s' = put k_boredom 0%Z (bump (strip text) s).
Proof.
  intros NB s'. subst s'.
  pose proof (process_turn_cases text "backtracking" s t NB) as H.
  unfold wp, turn_cases in H.
  destruct H as [[_ H]|[(_ & _ & C & _)|(_ & _ & [[_ H]|(f & resp & Hf & _ & (_ & F & _))])]].
  - left. exact H.
  - discriminate C.
  - left. exact H.
  - right. apply (fired_in_backtracking _ _ _ _ _ Hf F).
Qed.

Lemma backtracking_turn_only_resets_boredom_witness :
  let s' := session (snd (process_turn "the sea again" "backtracking"
                            (mkWorld (bored_session 6) [1; 1; 1]))) in
  s' = bump (strip "the sea again") (bored_session 6) \/
  s' = put k_boredom 0%Z (bump (strip "the sea again") (bored_session 6)).
Proof.
  apply (backtracking_turn_only_resets_boredom (bored_session 6)
           "the sea again" [1; 1; 1]).
  reflexivity.
Defined.

Lemma fired_imitation_frame text s f resp s' :
  f = authorial_imitation \/ In f (pool_of "imitation") ->
  fired text s f resp s' ->
  poem_text s' = poem_text s /\ banished_words s' = banished_words s /\
  boredom s' = boredom s.
Proof.
  intros Hf F.
  assert (H : f = suggest_quote \/ f = suggest_quote_stub \/ f = authorial_imitation).
  { destruct Hf as [->|Hf]; [auto|]. vm_compute in Hf.
    destruct Hf as [<-|[<-|[<-|[]]]]; auto. }
  destruct H as [-> | [-> | ->]]; inversion F; subst; try discriminate;
    try (repeat split; reflexivity); destruct s; repeat split; reflexivity.
Qed.

(** X10.  In the mode "imitation" a turn never banishes a word and never resets
    boredom: after a text that is not blank boredom is one higher. *)
Theorem imitation_turn_keeps_banished_and_counts s text t :
  str_truthy (strip text) = true ->
  let s' := session (snd (process_turn text "imitation" (mkWorld s t))) in
  banished_of s' = banished_of s /\ boredom_of s' = (boredom_of s + 1)%Z.
Proof.
  intros NB s'. subst s'.
  pose proof (process_turn_cases text "imitation" s t NB) as H.
  unfold wp, turn_cases in H.
  assert (B : forall x, x = bump (strip text) s ->
            banished_of x = banished_of s /\ boredom_of x = (boredom_of s + 1)%Z).
  { intros x ->. split; reflexivity. }
  assert (Fr : forall f resp x,
            f = authorial_imitation \/ In f (pool_of "imitation") ->
            fired (strip text) (bump (strip text) s) f resp x ->
            banished_of x = banished_of s /\ boredom_of x = (boredom_of s + 1)%Z).
  { intros f resp x Hf F.
    destruct (fired_imitation_frame _ _ _ _ _ Hf F) as (_ & E1 & E2).
    unfold banished_of, boredom_of. rewrite E1, E2. split; reflexivity. }
  destruct H as [[_ H]|[(_ & _ & _ & resp & _ & (_ & F & _))
                       |(_ & _ & [[_ H]|(f & resp & Hf & _ & (_ & F & _))])]].
  - apply B. exact H.
  - apply (Fr _ _ _ (or_introl eq_refl) F).
  - apply B. exact H.
  - apply (Fr _ _ _ (or_intror Hf) F).
Qed.

Lemma imitation_turn_keeps_banished_and_counts_witness :
  let s' := session (snd (process_turn "I love the forest" "imitation"
                            (mkWorld forest_session [2; 2]))) in
  banished_of s' = banished_of forest_session /\
  boredom_of s' = (boredom_of forest_session + 1)%Z.
Proof.
  apply (imitation_turn_keeps_banished_and_counts forest_session
           "I love the forest" [2; 2]).
  reflexivity.
Defined.

Lemma fired_variation_frame text s f resp s' :
  In f (pool_of "variation") ->
  fired text s f resp s' ->
  poem_text s' = poem_text s /\ used_quotes s' = used_quotes s /\
  to_imitate s' = to_imitate s /\ imitation_attempts s' = imitation_attempts s.
Proof.
  intros Hf F. vm_compute in Hf. destruct Hf as [<-|[<-|[<-|[]]]];
    inversion F; subst; try discriminate;
    try (repeat split; reflexivity); destruct s; repeat split; reflexivity.
Qed.

(** X11.  In the mode "variation" a turn never suggests a quote and neither opens
    nor advances an imitation challenge. *)
Theorem variation_turn_keeps_quotes_and_challenge s text t :
  let s' := session (snd (process_turn text "variation" (mkWorld s t))) in
  quotes_of s' = quotes_of s /\ target_set s' = target_set s /\
  attempts_of s' = attempts_of s.
Proof.
  intros s'. subst s'. destruct (str_truthy (strip text)) eqn:NB.
  2:{ rewrite process_turn_blank by exact NB. repeat split; reflexivity. }
  pose proof (process_turn_cases text "variation" s t NB) as H.
  unfold wp, turn_cases in H.
  assert (B : forall x, x = bump (strip text) s ->
            quotes_of x = quotes_of s /\ target_set x = target_set s /\
            attempts_of x = attempts_of s).
  { intros x ->. unfold target_set. cbn [bump to_imitate].
    destruct (to_imitate s); repeat split; reflexivity. }
  destruct H as [[_ H]|[(_ & _ & C & _)|(_ & _ & [[_ H]|(f & resp & Hf & _ & (_ & F & _))])]].
  - apply B. exact H.
  - discriminate C.
  - apply B. exact H.
  - destruct (fired_variation_frame _ _ _ _ _ Hf F) as (_ & E1 & E2 & E3).
    destruct (B _ eq_refl) as (B1 & B2 & B3).
    unfold quotes_of, target_set, attempts_of in *. rewrite E1, E2, E3. auto.
Qed.

(* ===================================================================== *)
(** ** The strategies that write to the session *)
(* ===================================================================== *)

(** X12.  With a challenge open, in the modes "imitation" and "mixed", a turn on
    a text that holds no banished word is answered by the imitation strategy
    alone: its response is the turn's, and the challenge is closed or has
    one attempt less. *)
Theorem open_challenge_is_served_first s text mode t :
  str_truthy (strip text) = true ->
  first_banished (banished_of s) text = None ->
  target_set s = true ->
  str_in mode ["imitation"; "mixed"] = true ->
  exists resp w',
    _authorial_imitation (strip text) (mkWorld (bump (strip text) s) t)
    = (Ok (Some resp), w') /\
    process_turn text mode (mkWorld s t) = (Ok resp, w') /\
    (idle (session w') \/
     (target_set (session w') = true /\
      to_imitate (session w') = to_imitate s /\
      attempts_of (session w') = (attempts_of s - 1)%Z /\
      (0 < attempts_of s - 1)%Z)).
Proof.
  intros NB F T M.
  assert (NB' : str_truthy (strip (strip text)) = true)
    by (rewrite strip_strip_truthy; exact NB).
  rewrite <- first_banished_strip in F.
  pose proof (analyze_text_unfold (strip text) mode s t NB' F) as E.
  rewrite T, M in E. cbn [andb] in E.
  destruct (authorial_always (strip text) (bump (strip text) s) t eq_refl)
    as (resp & w' & Ea & (Ht & _)).
  exists resp, w'. split; [exact Ea|]. split.
  - unfold process_turn, analyze. rewrite NB. cbn [negb].
    rewrite Ea in E. rewrite (bind_ok _ _ _ _ _ E).
    cbn [ret response_truthy opt_truthy]. rewrite Ht. reflexivity.
  - unfold target_set in T. destruct (to_imitate s) as [a|] eqn:Ta; [|discriminate].
    cbn [opt_truthy] in T.
    destruct (imitation_step a (attempts_of s) (strip text) (bump (strip text) s) t T)
      as [_ H].
    { split; cbn [bump to_imitate imitation_attempts]; rewrite ?Ta; reflexivity. }
    unfold imitate in H. rewrite Ea in H. cbn [snd] in H.
    destruct H as [H|[[H1 H2] H3]]; [left; exact H|].
    right. unfold target_set, attempts_of at 1. rewrite H1, H2.
    cbn [opt_truthy or_default]. auto.
Qed.

Lemma open_challenge_is_served_first_witness :
  exists resp w',
    _authorial_imitation (strip "sing on")
      (mkWorld (bump (strip "sing on") (challenge_session 3)) [5])
    = (Ok (Some resp), w') /\
    process_turn "sing on" "mixed" (mkWorld (challenge_session 3) [5])
    = (Ok resp, w') /\
    (idle (session w') \/
     (target_set (session w') = true /\
      to_imitate (session w') = to_imitate (challenge_session 3) /\
      attempts_of (session w') = (attempts_of (challenge_session 3) - 1)%Z /\
      (0 < attempts_of (challenge_session 3) - 1)%Z)).
Proof.
  apply (open_challenge_is_served_first (challenge_session 3) "sing on" "mixed" [5]);
    reflexivity.
Defined.

(** X13.  Without a target, also when the key is absent, the imitation strategy
    opens a challenge: it picks a catalog author, stores it with three
    attempts and names it, title-cased, in its response. *)
Theorem challenge_opens_with_three_attempts s text t :
  target_set s = false ->
  exists a t',
    In a MOCK_AUTHORS /\
    _authorial_imitation text (mkWorld s t)
    = (Ok (Some ("Try that again, in the style of " +s+ title a +s+ ".")),
       mkWorld (put k_imitation_attempts 3%Z (put k_to_imitate a s)) t').
Proof.
  intros T.
  enough (W : wp (_authorial_imitation text) (mkWorld s t)
                 (fun r w' => exists a, In a MOCK_AUTHORS /\
                    r = Ok (Some ("Try that again, in the style of "
                                  +s+ title a +s+ ".")) /\
                    session w' = put k_imitation_attempts 3%Z (put k_to_imitate a s))).
  { apply wp_run in W as (r & [s' t'] & E & a & Ha & -> & Hs). simpl in Hs. subst s'.
    exists a, t'. auto. }
  unfold _authorial_imitation. do 2 wp_det. unfold target_set in T. rewrite T.
  cbn [negb]. wp_pick Ha. do 5 wp_det. exists x. auto.
Qed.

Lemma challenge_opens_with_three_attempts_witness :
  exists a t',
    In a MOCK_AUTHORS /\
    _authorial_imitation "sing" (mkWorld empty_session [3; 1])
    = (Ok (Some ("Try that again, in the style of " +s+ title a +s+ ".")),
       mkWorld (put k_imitation_attempts 3%Z (put k_to_imitate a empty_session)) t').
Proof.
  apply (challenge_opens_with_three_attempts empty_session "sing" [3; 1]).
  reflexivity.
Defined.

Lemma catalog_quotes_distinct : NoDup MOCK_QUOTES.
Proof.
  unfold MOCK_QUOTES.
  repeat (constructor; [simpl; intuition discriminate|]). constructor.
Qed.

Lemma cycle_leaves_a_quote uq :
  filter (fun q => negb (pair_in q (cycle uq))) MOCK_QUOTES <> [].
Proof.
  intros E.
  assert (I : incl MOCK_QUOTES (cycle uq)).
  { intros q Hq. destruct (pair_in q (cycle uq)) eqn:P; [apply pair_in_iff; exact P|].
    assert (In q (filter (fun q => negb (pair_in q (cycle uq))) MOCK_QUOTES))
      by (apply filter_In; rewrite P; auto).
    rewrite E in H. destruct H. }
  pose proof (NoDup_incl_length catalog_quotes_distinct I) as L.
  unfold cycle in *. destruct uq as [|q0 uq']; [simpl in L; lia|].
  cbn [list_truthy andb] in *.
  destruct (length MOCK_QUOTES <=? length (q0 :: uq')) eqn:C.
  - simpl in L. lia.
  - apply Nat.leb_gt in C. lia.
Qed.

(** X14.  [_suggest_quote] always answers when the key [used_quotes] is there: it
    returns a catalog quote that is not in the current cycle and appends it;
    with the key absent it raises [KeyError] and leaves the store as it
    was. *)
Theorem quote_suggestion_never_runs_dry s text t :
  (forall uq, used_quotes s = Some uq ->
     exists q p t',
       In q MOCK_QUOTES /\ ~ In q (cycle uq) /\ In p quote_prefixes /\
       _suggest_quote text (mkWorld s t)
       = (Ok (Some (quote_response p q)),
          mkWorld (put k_used_quotes (cycle uq ++ [q]) s) t')) /\
  (used_quotes s = None ->
   _suggest_quote text (mkWorld s t)
   = (Raise (KeyError "used_quotes"), mkWorld s t)).
Proof.
  split.
  - intros uq Huq.
    enough (W : wp (_suggest_quote text) (mkWorld s t)
                   (fun r w' => exists q p, In q MOCK_QUOTES /\ ~ In q (cycle uq) /\
                      In p quote_prefixes /\ r = Ok (Some (quote_response p q)) /\
                      session w' = put k_used_quotes (cycle uq ++ [q]) s)).
    { apply wp_run in W as (r & [s' t'] & E & q & p & H1 & H2 & H3 & -> & Hs).
      simpl in Hs. subst s'. exists q, p, t'. auto. }
    unfold _suggest_quote. apply wp_bind.
    apply wp_getitem_some with (v := uq); [exact Huq|].
    assert (C : wp ((if list_truthy uq && (length MOCK_QUOTES <=? length uq)
                     then setitem k_used_quotes [] else ret tt))
                   (mkWorld s t)
                   (fun r w' => r = Ok tt /\ tape w' = t /\
                                used_quotes (session w') = Some (cycle uq) /\
                                forall v, put k_used_quotes v (session w')
                                          = put k_used_quotes v s)).
    { unfold cycle. destruct (list_truthy uq && _); [apply wp_setitem|apply wp_ret];
        cbn [session tape]; repeat split; try exact Huq; destruct s; reflexivity. }
    apply wp_bind. eapply wp_conseq; [exact C|]. clear C.
    intros r [s1 t1] (-> & Ht & Hs & Hp). cbn [session tape] in *. subst t1.
    apply wp_bind. apply wp_getitem_some with (v := cycle uq); [exact Hs|].
    pose proof (cycle_leaves_a_quote uq) as NE.
    destruct (filter _ MOCK_QUOTES) as [|q0 qs] eqn:Fq; [congruence|].
    cbn [list_truthy negb]. rewrite <- Fq. clear NE.
    apply wp_bind, wp_choice; [rewrite Fq; discriminate|].
    intros [quote author] t' Hq. wp_simpl.
    apply wp_bind. apply wp_getitem_some with (v := cycle uq); [exact Hs|].
    do 2 wp_det. wp_pick Hp'. apply wp_ret.
    apply filter_In in Hq as [Hq1 Hq2]. apply negb_true_iff, pair_in_false in Hq2.
    exists (quote, author), x. repeat split; auto. apply Hp.
  - intros E. unfold _suggest_quote, bind, getitem.
    cbn [session key_get k_used_quotes key_name]. rewrite E. reflexivity.
Qed.

Lemma quote_suggestion_never_runs_dry_witness :
  exists q p t',
    In q MOCK_QUOTES /\ ~ In q (cycle []) /\ In p quote_prefixes /\
    _suggest_quote "sing" (mkWorld default_session [2; 1])
    = (Ok (Some (quote_response p q)),
       mkWorld (put k_used_quotes (cycle [] ++ [q]) default_session) t').
Proof.
  apply (proj1 (quote_suggestion_never_runs_dry default_session "sing" [2; 1]) []).
  reflexivity.
Defined.

(** X15.  [_word_banishment] returns [None], and leaves the store as it was,
    exactly when every known noun of the text is banished already (so also
    when the text has none); otherwise it answers. *)
Theorem banishment_declines_only_when_nothing_is_left s text t bw :
  banished_words s = Some bw ->
  (fst (_word_banishment text (mkWorld s t)) = Ok None <->
   forall n, In n (_extract_nouns text) -> In n bw) /\
  (fst (_word_banishment text (mkWorld s t)) = Ok None ->
   _word_banishment text (mkWorld s t) = (Ok None, mkWorld s t)) /\
  (exists resp, fst (_word_banishment text (mkWorld s t)) = Ok resp).
Proof.
  intros Hbw. unfold _word_banishment.
  rewrite (bind_ok (getitem k_banished_words) _ (mkWorld s t) bw (mkWorld s t))
    by (unfold getitem; cbn [session key_get k_banished_words]; rewrite Hbw; reflexivity).
  destruct (filter (fun n => negb (str_in n bw)) (_extract_nouns text))
    as [|n0 ns] eqn:Fl; cbn [list_truthy negb].
  - split; [|split; [reflexivity|eexists; reflexivity]].
    split; [|reflexivity]. intros _ n Hn.
    destruct (str_in n bw) eqn:E; [apply str_in_iff; exact E|].
    assert (In n (filter (fun n => negb (str_in n bw)) (_extract_nouns text)))
      by (apply filter_In; rewrite E; auto).
    rewrite Fl in H. destruct H.
  - assert (W : wp (banned_word <- choice (n0 :: ns) ;;
                    bw0 <- getitem k_banished_words ;;
                    setitem k_banished_words (bw0 ++ [banned_word]) ;;;
                    r <- choice ["kin"; "brethren"; "kindred"; "neighbors"] ;;
                    ret (Some ("I forbid you from singing of " +s+ banned_word
                               +s+ " or this word's " +s+ r +s+ ".")))
                   (mkWorld s t)
                   (fun r _ => exists resp, r = Ok (Some resp))).
    { wp_pick Hn. apply wp_bind. apply wp_getitem_some with (v := bw); [exact Hbw|].
      do 2 wp_det. wp_pick Hr. apply wp_ret. eauto. }
    unfold wp in W. destruct W as (resp & W).
    split; [|split].
    + split; [intros E; rewrite W in E; discriminate|].
      intros A. exfalso.
      assert (Hn : In n0 (filter (fun n => negb (str_in n bw)) (_extract_nouns text)))
        by (rewrite Fl; left; reflexivity).
      apply filter_In in Hn as [Hn1 Hn2]. apply negb_true_iff, str_in_false in Hn2.
      apply Hn2, A, Hn1.
    + intros E. rewrite W in E. discriminate.
    + exists (Some resp). exact W.
Qed.

Lemma banishment_declines_only_when_nothing_is_left_witness :
  (fst (_word_banishment "the forest" (mkWorld forest_session [2])) = Ok None <->
   forall n, In n (_extract_nouns "the forest") -> In n ["forest"]) /\
  (fst (_word_banishment "the forest" (mkWorld forest_session [2])) = Ok None ->
   _word_banishment "the forest" (mkWorld forest_session [2])
   = (Ok None, mkWorld forest_session [2])) /\
  (exists resp, fst (_word_banishment "the forest" (mkWorld forest_session [2]))
                = Ok resp).
Proof.
  apply (banishment_declines_only_when_nothing_is_left forest_session
           "the forest" [2] ["forest"]).
  reflexivity.
Defined.

(** X16.  [_check_banished_words] never writes to the session and never raises.
    It returns [None], without a draw, exactly when no word of the
    lower-cased text is banished (so also when the key is absent or the list
    empty); otherwise it answers with one of its five reproaches and names
    the first banished word of the text. *)
Theorem banished_check_is_silent_without_a_hit s text t :
  session (snd (_check_banished_words text (mkWorld s t))) = s /\
  (fst (_check_banished_words text (mkWorld s t)) = Ok None <->
   first_banished (banished_of s) text = None) /\
  (first_banished (banished_of s) text = None ->
   _check_banished_words text (mkWorld s t) = (Ok None, mkWorld s t)) /\
  (forall x, first_banished (banished_of s) text = Some x ->
     exists resp, In resp banished_responses /\
       fst (_check_banished_words text (mkWorld s t))
       = Ok (Some (banished_warning resp x))).
Proof.
  pose proof (wp_check_banished_words text s t) as [Hs H]. split; [exact Hs|].
  assert (Hit : forall x, first_banished (banished_of s) text = Some x ->
            exists resp, In resp banished_responses /\
              fst (_check_banished_words text (mkWorld s t))
              = Ok (Some (banished_warning resp x))).
  { intros x F. unfold banished_of in F.
    destruct (banished_words s) as [[|b bw]|]; cbn [or_default] in F.
    - unfold first_banished in F. apply find_some in F as [_ F]. discriminate.
    - rewrite F in H. exact H.
    - unfold first_banished in F. apply find_some in F as [_ F]. discriminate. }
  split; [|split; [apply check_banished_none|exact Hit]]. split.
  - intros E.
    destruct (first_banished (banished_of s) text) as [x|] eqn:F; [|reflexivity].
    exfalso. destruct (Hit x eq_refl) as (resp & _ & H'). rewrite H' in E.
    discriminate.
  - intros F. rewrite (check_banished_none text s t F). reflexivity.
Qed.

Lemma banished_check_is_silent_without_a_hit_witness :
  exists resp, In resp banished_responses /\
    fst (_check_banished_words "The Forest sleeps" (mkWorld forest_session [3]))
    = Ok (Some (banished_warning resp "forest")).
Proof.
  apply (proj2 (proj2 (proj2 (banished_check_is_silent_without_a_hit
                                forest_session "The Forest sleeps" [3])))).
  reflexivity.
Defined.

Lemma fired_banished text s f resp s' :
  fired text s f resp s' ->
  banished_of s' = banished_of s \/
  exists n, In n (_extract_nouns text) /\ ~ In n (banished_of s) /\
            banished_of s' = banished_of s ++ [n].
Proof.
  intros F. inversion F; subst; try (left; reflexivity);
    try (left; destruct s; reflexivity).
  right.
  match goal with
  | Hn : In ?n (_extract_nouns text), Hb : banished_words s = Some ?bw |- _ =>
      exists n; unfold banished_of; rewrite Hb
  end.
  destruct s. cbn [put key_put k_banished_words banished_words or_default]. auto.
Qed.

(** X17.  A turn never removes a banished word: the list after the turn is the
    list before it, or that list with one new known noun of the text at its
    end. *)
Theorem a_turn_banishes_at_most_one_more_word s text mode t :
  let s' := session (snd (process_turn text mode (mkWorld s t))) in
  banished_of s' = banished_of s \/
  exists n, In n (_extract_nouns (strip text)) /\ ~ In n (banished_of s) /\
            banished_of s' = banished_of s ++ [n].
Proof.
  intros s'. subst s'. destruct (str_truthy (strip text)) eqn:NB.
  - pose proof (process_turn_spec text mode s t NB) as H. unfold wp in H.
    destruct H as [[_ ->]|(f & resp & _ & _ & (_ & F & _))]; [left; reflexivity|].
    apply fired_banished in F. exact F.
  - rewrite process_turn_blank by exact NB. left. reflexivity.
Qed.

Lemma str_append_assoc a b c : (a +s+ b) +s+ c = a +s+ (b +s+ c).
Proof. induction a as [|x a IH]; simpl; [reflexivity|]. rewrite IH. reflexivity. Qed.

Lemma str_length_append a b :
  String.length (a +s+ b) = String.length a + String.length b.
Proof. induction a as [|x a IH]; simpl; [reflexivity|]. rewrite IH. reflexivity. Qed.

Lemma lower_app a b : lower (a +s+ b) = lower a +s+ lower b.
Proof. induction a as [|c a IH]; simpl; [reflexivity|]. rewrite IH. reflexivity. Qed.

(** X18.  Noun extraction reads the words of the text only: it does not depend on
    the case of the letters nor on the blanks around the text, it keeps the
    order and the repetitions (what two texts joined by a blank give is the
    concatenation of what each gives), and it yields vocabulary words. *)
Theorem noun_extraction_reads_words a b :
  _extract_nouns (a +s+ " " +s+ b) = _extract_nouns a ++ _extract_nouns b /\
  _extract_nouns (lower a) = _extract_nouns a /\
  _extract_nouns (strip a) = _extract_nouns a /\
  (forall n, In n (_extract_nouns a) -> In n common_nouns).
Proof.
  unfold _extract_nouns. split; [|split; [|split]].
  - rewrite lower_app. cbn [lower String.append].
    rewrite (split_app_blank (lower a) _ (lower b)) by reflexivity.
    apply filter_app.
  - rewrite lower_idem. reflexivity.
  - rewrite !split_lower, split_strip. reflexivity.
  - intros n Hn. apply filter_In in Hn as [_ Hn]. apply str_in_iff. exact Hn.
Qed.

(* ===================================================================== *)
(** ** [random.sample] draws without replacement *)
(* ===================================================================== *)

Lemma nth_error_list_set_eq {A} (v : A) l : forall j,
  j < length l -> nth_error (list_set j v l) j = Some v.
Proof.
  induction l as [|a l IH]; intros [|j] H; simpl in *; try lia; [reflexivity|].
  apply IH. lia.
Qed.

Lemma nth_error_list_set_neq {A} (v : A) l : forall j k,
  k <> j -> nth_error (list_set j v l) k = nth_error l k.
Proof.
  induction l as [|a l IH]; intros [|j] [|k] H; simpl; try reflexivity; try lia.
  apply IH. lia.
Qed.

Lemma in_firstn_nth {A} (y : A) m l :
  In y (firstn m l) -> exists k, k < m /\ nth_error l k = Some y.
Proof.
  intros H. apply In_nth_error in H as [k Hk]. rewrite nth_error_firstn in Hk.
  destruct (k <? m) eqn:E; [|discriminate]. apply Nat.ltb_lt in E. eauto.
Qed.

Lemma nodup_firstn_inj {A} (y : A) m l a b :
  NoDup (firstn m l) -> a < m -> b < m ->
  nth_error l a = Some y -> nth_error l b = Some y -> a = b.
Proof.
  intros N Ha Hb Ea Eb. rewrite NoDup_nth_error in N. apply N.
  - rewrite length_firstn.
    assert (a < length l) by (apply nth_error_Some; congruence). lia.
  - rewrite !nth_error_firstn.
    apply Nat.ltb_lt in Ha, Hb. rewrite Ha, Hb. congruence.
Qed.

(** One draw of [random.sample]: the live part of the pool without the
    drawn element. *)
Lemma sample_pool_step {A} (pool : list A) live j x moved :
  j < live -> live <= length pool ->
  nth_error pool j = Some x -> nth_error pool (live - 1) = Some moved ->
  NoDup (firstn live pool) ->
  NoDup (firstn (live - 1) (list_set j moved pool)) /\
  incl (firstn (live - 1) (list_set j moved pool)) (firstn live pool) /\
  ~ In x (firstn (live - 1) (list_set j moved pool)).
Proof.
  intros Hj Hl Ex Em N.
  assert (P : forall k y, k < live - 1 ->
            nth_error (list_set j moved pool) k = Some y ->
            exists k', k' < live /\ k' <> j /\ nth_error pool k' = Some y /\
                       (k <> j -> k' = k) /\ (k = j -> k' = live - 1)).
  { intros k y Hk E. destruct (Nat.eq_dec k j) as [->|D].
    - rewrite nth_error_list_set_eq in E by lia. injection E as <-.
      exists (live - 1). repeat split; try lia. exact Em.
    - rewrite nth_error_list_set_neq in E by exact D.
      exists k. repeat split; try lia. exact E. }
  split; [|split].
  - apply NoDup_nth_error. intros a b Ha E.
    rewrite length_firstn, length_list_set in Ha.
    rewrite !nth_error_firstn in E.
    assert (Ha' : a < live - 1) by lia.
    pose proof Ha' as Hab. apply Nat.ltb_lt in Hab. rewrite Hab in E.
    destruct (nth_error (list_set j moved pool) a) as [y|] eqn:Ea.
    2:{ exfalso. apply nth_error_None in Ea. rewrite length_list_set in Ea. lia. }
    destruct (b <? live - 1) eqn:Hb; [|discriminate]. apply Nat.ltb_lt in Hb.
    symmetry in E.
    destruct (P a y Ha' Ea) as (a' & A1 & A2 & A3 & A4 & A5).
    destruct (P b y Hb E) as (b' & B1 & B2 & B3 & B4 & B5).
    pose proof (nodup_firstn_inj y live pool a' b' N A1 B1 A3 B3) as Eab.
    destruct (Nat.eq_dec a j), (Nat.eq_dec b j); lia.
  - intros y Hy. apply in_firstn_nth in Hy as (k & Hk & E).
    destruct (P k y Hk E) as (k' & K1 & _ & K3 & _).
    assert (I : nth_error (firstn live pool) k' = Some y).
    { rewrite nth_error_firstn. apply Nat.ltb_lt in K1. rewrite K1. exact K3. }
    eapply nth_error_In; eauto.
  - intros Hy. apply in_firstn_nth in Hy as (k & Hk & E).
    destruct (P k x Hk E) as (k' & K1 & K2 & K3 & _).
    apply K2. apply (nodup_firstn_inj x live pool k' j N K1 Hj K3 Ex).
Qed.

Lemma wp_sample_from_distinct {A} (k : nat) : forall (pool : list A) live w Q,
  k <= live -> live <= length pool -> NoDup (firstn live pool) ->
  (forall r t', length r = k -> NoDup r -> incl r (firstn live pool) ->
                Q (Ok r) (mkWorld (session w) t')) ->
  wp (sample_from pool live k) w Q.
Proof.
  induction k as [|k IH]; intros pool live w Q Hk Hl N H.
  - simpl. apply wp_ret. destruct w. apply H; [reflexivity|constructor|intros x []].
  - cbn [sample_from]. apply wp_bind. apply wp_randbelow. intros j t' Hj.
    specialize (Hj ltac:(lia)).
    apply wp_bind. apply wp_list_item_ok; [lia|].
    intros x Hx. apply wp_bind. apply wp_list_item_ok; [lia|]. intros mv Hmv.
    cbn [session] in *.
    destruct (sample_pool_step pool live j x mv Hj Hl Hx Hmv N) as (N' & I' & X').
    apply wp_bind. apply IH; [lia|rewrite length_list_set; lia|exact N'|].
    intros r t'' Hr Nr Ir. apply wp_ret. cbn [session]. apply H.
    + simpl. congruence.
    + constructor; [intros Hin; apply X', Ir, Hin|exact Nr].
    + intros y [<-|Hy].
      * assert (I : nth_error (firstn live pool) j = Some x).
        { rewrite nth_error_firstn. apply Nat.ltb_lt in Hj. rewrite Hj. exact Hx. }
        eapply nth_error_In; eauto.
      * apply I', Ir, Hy.
Qed.

Lemma wp_sample_distinct {A} (l : list A) k w Q :
  k <= length l -> NoDup l ->
  (forall r t', length r = k -> NoDup r -> incl r l ->
                Q (Ok r) (mkWorld (session w) t')) ->
  wp (sample l k) w Q.
Proof.
  intros Hk N H. unfold sample.
  destruct (length l <? k) eqn:E; [apply Nat.ltb_lt in E; lia|].
  apply wp_sample_from_distinct; auto.
  - rewrite firstn_all. exact N.
  - intros r t' Hr Nr Ir. apply H; auto. rewrite firstn_all in Ir. exact Ir.
Qed.

(* ===================================================================== *)
(** ** The questions about a noun *)
(* ===================================================================== *)

Ltac nodup_strings :=
  repeat (apply NoDup_cons; [simpl; intuition discriminate|]); apply NoDup_nil.

Lemma adjectives_distinct noun :
  NoDup (dict_get MOCK_ADJECTIVES noun MOCK_ADJECTIVES_default).
Proof.
  apply dict_get_in; [nodup_strings|].
  repeat (apply Forall_cons; [cbn [snd]; nodup_strings|]). apply Forall_nil.
Qed.

Lemma related_distinct noun :
  NoDup (dict_get related_words noun ["beauty"; "truth"; "wonder"]).
Proof.
  apply dict_get_in; [nodup_strings|].
  repeat (apply Forall_cons; [cbn [snd]; nodup_strings|]). apply Forall_nil.
Qed.

(** X19.  [_question_about_adjectives] returns [None], without a draw, when the
    text has no known noun; otherwise it asks about a noun of the text and
    offers two different adjectives of that noun's list, title-cased.  It
    never raises and never writes to the session. *)
Theorem adjective_question_offers_two_adjectives text s t :
  (_extract_nouns text = [] ->
   _question_about_adjectives text (mkWorld s t) = (Ok None, mkWorld s t)) /\
  (_extract_nouns text <> [] ->
   exists noun a b t',
     In noun (_extract_nouns text) /\
     In a (dict_get MOCK_ADJECTIVES noun MOCK_ADJECTIVES_default) /\
     In b (dict_get MOCK_ADJECTIVES noun MOCK_ADJECTIVES_default) /\
     a <> b /\
     _question_about_adjectives text (mkWorld s t)
     = (Ok (Some ("What sort of " +s+ noun +s+ "? " +s+ title a +s+ "? "
                  +s+ title b +s+ "?")), mkWorld s t')).
Proof.
  unfold _question_about_adjectives. split.
  - intros E. rewrite E. reflexivity.
  - intros NE.
    enough (W : wp (noun <- choice (_extract_nouns text) ;;
                    adj_sample <- sample
                      (dict_get MOCK_ADJECTIVES noun MOCK_ADJECTIVES_default)
                      (Nat.min 2 (length (dict_get MOCK_ADJECTIVES noun
                                            MOCK_ADJECTIVES_default))) ;;
                    a0 <- list_item adj_sample 0 ;;
                    a1 <- (if 1 <? length adj_sample
                           then (a <- list_item adj_sample 1 ;; ret (title a))
                           else ret "Beautiful") ;;
                    ret (Some ("What sort of " +s+ noun +s+ "? " +s+ title a0
                               +s+ "? " +s+ a1 +s+ "?")))
                   (mkWorld s t)
                   (fun r w' => exists noun a b,
                      In noun (_extract_nouns text) /\
                      In a (dict_get MOCK_ADJECTIVES noun MOCK_ADJECTIVES_default) /\
                      In b (dict_get MOCK_ADJECTIVES noun MOCK_ADJECTIVES_default) /\
                      a <> b /\
                      r = Ok (Some ("What sort of " +s+ noun +s+ "? " +s+ title a
                                    +s+ "? " +s+ title b +s+ "?")) /\
                      session w' = s)).
    { destruct (_extract_nouns text) as [|n0 ns] eqn:En; [congruence|].
      cbn [list_truthy negb].
      apply wp_run in W as (r & [s' t'] & E & noun & a & b & H1 & H2 & H3 & H4 & -> & Hs).
      simpl in Hs. subst s'. exists noun, a, b, t'. auto. }
    wp_pick Hn. apply wp_bind. rewrite adjectives_length.
    apply wp_sample_distinct;
      [rewrite adjectives_length; simpl; lia|apply adjectives_distinct|].
    intros r t2 Hr Nr Ir. cbn [session].
    destruct r as [|a0 [|a1 [|]]]; try discriminate.
    do 3 wp_det. cbn [length Nat.ltb Nat.leb]. do 4 wp_det. exists x, a0, a1.
    split; [exact Hn|]. split; [apply Ir; left; reflexivity|].
    split; [apply Ir; right; left; reflexivity|].
    split; [|split; reflexivity].
    inversion Nr as [|? ? Hnot _]; subst. intros ->. apply Hnot. left. reflexivity.
Qed.

Lemma adjective_question_offers_two_adjectives_witness :
  exists noun a b t',
    In noun (_extract_nouns "the wolf") /\
    In a (dict_get MOCK_ADJECTIVES noun MOCK_ADJECTIVES_default) /\
    In b (dict_get MOCK_ADJECTIVES noun MOCK_ADJECTIVES_default) /\
    a <> b /\
    _question_about_adjectives "the wolf" (mkWorld empty_session [0; 1; 1])
    = (Ok (Some ("What sort of " +s+ noun +s+ "? " +s+ title a +s+ "? "
                 +s+ title b +s+ "?")), mkWorld empty_session t').
Proof.
  apply (proj2 (adjective_question_offers_two_adjectives "the wolf"
                  empty_session [0; 1; 1])).
  vm_compute. discriminate.
Defined.

(** X20.  [_question_about_verb] and [_question_about_object] return [None],
    without a draw, when the text has no known noun; otherwise each asks
    about a noun of the text with a verb, or the object of a verb, of that
    noun's list.  They never raise and never write to the session. *)
Theorem verb_and_object_questions_name_a_noun text s t :
  (_extract_nouns text = [] ->
   _question_about_verb text (mkWorld s t) = (Ok None, mkWorld s t) /\
   _question_about_object text (mkWorld s t) = (Ok None, mkWorld s t)) /\
  (_extract_nouns text <> [] ->
   (exists noun verb obj b t',
      In noun (_extract_nouns text) /\
      In (verb, obj) (dict_get MOCK_VERBS noun MOCK_VERBS_default) /\
      In b ["What could"; "Why does"; "What shall"; "What did"; "Why would"] /\
      _question_about_verb text (mkWorld s t)
      = (Ok (Some (b +s+ " the " +s+ noun +s+ " " +s+ verb +s+ "?")),
         mkWorld s t')) /\
   (exists noun verb obj b t',
      In noun (_extract_nouns text) /\
      In (verb, obj) (dict_get MOCK_VERBS noun MOCK_VERBS_default) /\
      In b ["What could"; "What does"; "What shall"; "What did"] /\
      _question_about_object text (mkWorld s t)
      = (Ok (Some (b +s+ " the " +s+ noun +s+ " do to the " +s+ obj +s+ "?")),
         mkWorld s t'))).
Proof.
  unfold _question_about_verb, _question_about_object. split.
  - intros E. rewrite E. split; reflexivity.
  - intros NE. destruct (_extract_nouns text) as [|n0 ns] eqn:En; [congruence|].
    cbn [list_truthy negb]. rewrite <- En. split.
    + enough (W : wp (noun <- choice (_extract_nouns text) ;;
                      '(verb, obj) <- choice (dict_get MOCK_VERBS noun MOCK_VERBS_default) ;;
                      b <- choice ["What could"; "Why does"; "What shall";
                                   "What did"; "Why would"] ;;
                      ret (Some (b +s+ " the " +s+ noun +s+ " " +s+ verb +s+ "?")))
                     (mkWorld s t)
                     (fun r w' => exists noun verb obj b,
                        In noun (_extract_nouns text) /\
                        In (verb, obj) (dict_get MOCK_VERBS noun MOCK_VERBS_default) /\
                        In b ["What could"; "Why does"; "What shall"; "What did";
                              "Why would"] /\
                        r = Ok (Some (b +s+ " the " +s+ noun +s+ " " +s+ verb +s+ "?")) /\
                        session w' = s)).
      { apply wp_run in W as (r & [s' t'] & E & noun & verb & obj & b & H1 & H2 & H3 & -> & Hs).
        simpl in Hs. subst s'. exists noun, verb, obj, b, t'. auto. }
      wp_pick Hn; [rewrite En; discriminate|].
      wp_pick Hv; [apply verbs_nonempty|]. destruct x0 as [verb obj].
      wp_pick Hb. apply wp_ret. exists x, verb, obj, x0. auto.
    + enough (W : wp (noun <- choice (_extract_nouns text) ;;
                      '(verb, obj) <- choice (dict_get MOCK_VERBS noun MOCK_VERBS_default) ;;
                      b <- choice ["What could"; "What does"; "What shall"; "What did"] ;;
                      ret (Some (b +s+ " the " +s+ noun +s+ " do to the " +s+ obj
                                 +s+ "?")))
                     (mkWorld s t)
                     (fun r w' => exists noun verb obj b,
                        In noun (_extract_nouns text) /\
                        In (verb, obj) (dict_get MOCK_VERBS noun MOCK_VERBS_default) /\
                        In b ["What could"; "What does"; "What shall"; "What did"] /\
                        r = Ok (Some (b +s+ " the " +s+ noun +s+ " do to the " +s+ obj
                                      +s+ "?")) /\
                        session w' = s)).
      { apply wp_run in W as (r & [s' t'] & E & noun & verb & obj & b & H1 & H2 & H3 & -> & Hs).
        simpl in Hs. subst s'. exists noun, verb, obj, b, t'. auto. }
      wp_pick Hn; [rewrite En; discriminate|].
      wp_pick Hv; [apply verbs_nonempty|]. destruct x0 as [verb obj].
      wp_pick Hb. apply wp_ret. exists x, verb, obj, x0. auto.
Qed.

Lemma verb_and_object_questions_name_a_noun_witness :
  (exists noun verb obj b t',
     In noun (_extract_nouns "The wolf waits") /\
     In (verb, obj) (dict_get MOCK_VERBS noun MOCK_VERBS_default) /\
     In b ["What could"; "Why does"; "What shall"; "What did"; "Why would"] /\
     _question_about_verb "The wolf waits" (mkWorld empty_session [0; 2; 1])
     = (Ok (Some (b +s+ " the " +s+ noun +s+ " " +s+ verb +s+ "?")),
        mkWorld empty_session t')) /\
  (exists noun verb obj b t',
     In noun (_extract_nouns "The wolf waits") /\
     In (verb, obj) (dict_get MOCK_VERBS noun MOCK_VERBS_default) /\
     In b ["What could"; "What does"; "What shall"; "What did"] /\
     _question_about_object "The wolf waits" (mkWorld empty_session [0; 2; 1])
     = (Ok (Some (b +s+ " the " +s+ noun +s+ " do to the " +s+ obj +s+ "?")),
        mkWorld empty_session t')).
Proof.
  apply (proj2 (verb_and_object_questions_name_a_noun "The wolf waits"
                  empty_session [0; 2; 1])).
  vm_compute. discriminate.
Defined.

(** X21.  [_word2vec_suggestions] returns [None], without a draw, when the text
    has no known noun; otherwise it names a noun of the text and two
    different words of that noun's list of related words.  It never raises
    and never writes to the session. *)
Theorem related_words_are_two_of_the_list text s t :
  (_extract_nouns text = [] ->
   _word2vec_suggestions text (mkWorld s t) = (Ok None, mkWorld s t)) /\
  (_extract_nouns text <> [] ->
   exists noun a b t',
     In noun (_extract_nouns text) /\
     In a (dict_get related_words noun ["beauty"; "truth"; "wonder"]) /\
     In b (dict_get related_words noun ["beauty"; "truth"; "wonder"]) /\
     a <> b /\
     _word2vec_suggestions text (mkWorld s t)
     = (Ok (Some ("You've sung me " +s+ noun +s+ "...now sing me " +s+ a
                  +s+ "..." +s+ b +s+ "...")), mkWorld s t')).
Proof.
  unfold _word2vec_suggestions. split.
  - intros E. rewrite E. reflexivity.
  - intros NE. destruct (_extract_nouns text) as [|n0 ns] eqn:En; [congruence|].
    cbn [list_truthy negb]. rewrite <- En.
    enough (W : wp (noun <- choice (_extract_nouns text) ;;
                    selected <- sample
                      (dict_get related_words noun ["beauty"; "truth"; "wonder"])
                      (Nat.min 2 (length (dict_get related_words noun
                                            ["beauty"; "truth"; "wonder"]))) ;;
                    ret (Some (fold_left (fun acc word => acc +s+ word +s+ "...")
                                 selected
                                 ("You've sung me " +s+ noun +s+ "...now sing me "))))
                   (mkWorld s t)
                   (fun r w' => exists noun a b,
                      In noun (_extract_nouns text) /\
                      In a (dict_get related_words noun ["beauty"; "truth"; "wonder"]) /\
                      In b (dict_get related_words noun ["beauty"; "truth"; "wonder"]) /\
                      a <> b /\
                      r = Ok (Some ("You've sung me " +s+ noun +s+ "...now sing me "
                                    +s+ a +s+ "..." +s+ b +s+ "...")) /\
                      session w' = s)).
    { apply wp_run in W as (r & [s' t'] & E & noun & a & b & H1 & H2 & H3 & H4 & -> & Hs).
      simpl in Hs. subst s'. exists noun, a, b, t'. auto. }
    wp_pick Hn; [rewrite En; discriminate|]. apply wp_bind. rewrite related_length.
    apply wp_sample_distinct;
      [rewrite related_length; simpl; lia|apply related_distinct|].
    intros r t2 Hr Nr Ir. cbn [session].
    destruct r as [|a0 [|a1 [|]]]; try discriminate.
    apply wp_ret. exists x, a0, a1.
    split; [exact Hn|]. split; [apply Ir; left; reflexivity|].
    split; [apply Ir; right; left; reflexivity|].
    split.
    + inversion Nr as [|? ? Hnot _]; subst. intros ->. apply Hnot. left. reflexivity.
    + split; [|reflexivity]. cbn [fold_left].
      rewrite !str_append_assoc. reflexivity.
Qed.

Lemma related_words_are_two_of_the_list_witness :
  exists noun a b t',
    In noun (_extract_nouns "the sea") /\
    In a (dict_get related_words noun ["beauty"; "truth"; "wonder"]) /\
    In b (dict_get related_words noun ["beauty"; "truth"; "wonder"]) /\
    a <> b /\
    _word2vec_suggestions "the sea" (mkWorld empty_session [0; 2; 0])
    = (Ok (Some ("You've sung me " +s+ noun +s+ "...now sing me " +s+ a
                 +s+ "..." +s+ b +s+ "...")), mkWorld empty_session t').
Proof.
  apply (proj2 (related_words_are_two_of_the_list "the sea" empty_session [0; 2; 0])).
  vm_compute. discriminate.
Defined.

(* ===================================================================== *)
(** ** Recall, comparison, entities and stubs *)
(* ===================================================================== *)

(** X22.  [_command_recall_noun] returns [None] and leaves the store as it was
    while boredom is below 5 or the poem mentions no noun of its vocabulary;
    otherwise it sets boredom to 0 and asks to return to a word of the poem,
    spelled as the poem has it. *)
Theorem recall_needs_boredom_and_a_noun s text t b p :
  boredom s = Some b -> poem_text s = Some p ->
  ((b < 5)%Z \/ recallable p = [] ->
   _command_recall_noun text (mkWorld s t) = (Ok None, mkWorld s t)) /\
  ((5 <= b)%Z -> recallable p <> [] ->
   exists old_noun beginning ending t',
     In old_noun (recallable p) /\
     In beginning ["I grow weary."; "I grow bored."; "You have lost the thread."] /\
     In ending ["Return to the part about the "; "Tell me more about the "] /\
     _command_recall_noun text (mkWorld s t)
     = (Ok (Some (beginning +s+ " " +s+ ending +s+ old_noun +s+ ".")),
        mkWorld (put k_boredom 0%Z s) t')).
Proof.
  intros Hb Hp. unfold _command_recall_noun, recallable.
  rewrite (bind_ok (getitem k_boredom) _ (mkWorld s t) b (mkWorld s t))
    by (unfold getitem; cbn [session key_get k_boredom]; rewrite Hb; reflexivity).
  split.
  - intros [L|E].
    + apply Z.ltb_lt in L. rewrite L. reflexivity.
    + destruct (b <? 5)%Z; [reflexivity|].
      rewrite (bind_ok (getitem k_poem_text) _ (mkWorld s t) p (mkWorld s t))
        by (unfold getitem; cbn [session key_get k_poem_text]; rewrite Hp; reflexivity).
      rewrite E. reflexivity.
  - intros L NE. apply Z.ltb_ge in L. rewrite L.
    rewrite (bind_ok (getitem k_poem_text) _ (mkWorld s t) p (mkWorld s t))
      by (unfold getitem; cbn [session key_get k_poem_text]; rewrite Hp; reflexivity).
    destruct (filter _ (split p)) as [|n0 ns] eqn:En; [congruence|].
    cbn [list_truthy negb].
    enough (W : wp (setitem k_boredom 0%Z ;;;
                    old_noun <- choice (n0 :: ns) ;;
                    b0 <- choice ["I grow weary."; "I grow bored.";
                                  "You have lost the thread."] ;;
                    e <- choice ["Return to the part about the ";
                                 "Tell me more about the "] ;;
                    ret (Some (b0 +s+ " " +s+ e +s+ old_noun +s+ ".")))
                   (mkWorld s t)
                   (fun r w' => exists old_noun beginning ending,
                      In old_noun (n0 :: ns) /\
                      In beginning ["I grow weary."; "I grow bored.";
                                    "You have lost the thread."] /\
                      In ending ["Return to the part about the ";
                                 "Tell me more about the "] /\
                      r = Ok (Some (beginning +s+ " " +s+ ending +s+ old_noun +s+ ".")) /\
                      session w' = put k_boredom 0%Z s)).
    { apply wp_run in W as (r & [s' t'] & E & o & bg & e & H1 & H2 & H3 & -> & Hs).
      simpl in Hs. subst s'. exists o, bg, e, t'. auto. }
    do 2 wp_det. wp_pick Hn. wp_pick Hbg. wp_pick He. apply wp_ret.
    exists x, x0, x1. auto.
Qed.

Lemma recall_needs_boredom_and_a_noun_witness :
  exists old_noun beginning ending t',
    In old_noun (recallable "The Forest is dark") /\
    In beginning ["I grow weary."; "I grow bored."; "You have lost the thread."] /\
    In ending ["Return to the part about the "; "Tell me more about the "] /\
    _command_recall_noun "again" (mkWorld weary_session [0; 1; 1])
    = (Ok (Some (beginning +s+ " " +s+ ending +s+ old_noun +s+ ".")),
       mkWorld (put k_boredom 0%Z weary_session) t').
Proof.
  apply (proj2 (recall_needs_boredom_and_a_noun weary_session "again" [0; 1; 1]
                  5%Z "The Forest is dark" eq_refl eq_refl));
    [lia|vm_compute; discriminate].
Defined.

(** X23.  [_command_comparison] returns [None] and leaves the store as it was
    while boredom is below 5, or the text has no known noun, or the poem
    mentions no noun of its vocabulary; otherwise it sets boredom to 0 and
    asks to compare a word of the poem with a noun of the text. *)
Theorem comparison_needs_boredom_and_two_nouns s text t b p :
  boredom s = Some b -> poem_text s = Some p ->
  ((b < 5)%Z \/ _extract_nouns text = [] \/ comparable p = [] ->
   _command_comparison text (mkWorld s t) = (Ok None, mkWorld s t)) /\
  ((5 <= b)%Z -> _extract_nouns text <> [] -> comparable p <> [] ->
   exists old_noun current_noun question t',
     In old_noun (comparable p) /\
     In current_noun (_extract_nouns text) /\
     In question ["Which will last longer?"; "Which is deeper?";
                  "Which is more lovely?"; "Which is closer to the divine?";
                  "Which is more virtuous?"] /\
     _command_comparison text (mkWorld s t)
     = (Ok (Some ("Now compare the " +s+ old_noun +s+ " to the "
                  +s+ current_noun +s+ ". " +s+ question)),
        mkWorld (put k_boredom 0%Z s) t')).
Proof.
  intros Hb Hp. unfold _command_comparison, comparable.
  rewrite (bind_ok (getitem k_boredom) _ (mkWorld s t) b (mkWorld s t))
    by (unfold getitem; cbn [session key_get k_boredom]; rewrite Hb; reflexivity).
  assert (G : forall k : string -> M (option string),
            bind (getitem k_poem_text) k (mkWorld s t) = k p (mkWorld s t)).
  { intros k. apply bind_ok. unfold getitem.
    cbn [session key_get k_poem_text]. rewrite Hp. reflexivity. }
  split.
  - intros [L|[E|E]].
    + apply Z.ltb_lt in L. rewrite L. reflexivity.
    + destruct (b <? 5)%Z; [reflexivity|]. rewrite G, E. reflexivity.
    + destruct (b <? 5)%Z; [reflexivity|]. rewrite G, E.
      cbn [list_truthy negb]. rewrite orb_true_r. reflexivity.
  - intros L NE1 NE2. apply Z.ltb_ge in L. rewrite L, G.
    destruct (_extract_nouns text) as [|c0 cs] eqn:Ec; [congruence|].
    destruct (filter _ (split p)) as [|n0 ns] eqn:En; [congruence|].
    cbn [list_truthy negb orb].
    enough (W : wp (setitem k_boredom 0%Z ;;;
                    current_noun <- choice (c0 :: cs) ;;
                    old_noun <- choice (n0 :: ns) ;;
                    q <- choice ["Which will last longer?"; "Which is deeper?";
                                 "Which is more lovely?";
                                 "Which is closer to the divine?";
                                 "Which is more virtuous?"] ;;
                    ret (Some ("Now compare the " +s+ old_noun +s+ " to the "
                               +s+ current_noun +s+ ". " +s+ q)))
                   (mkWorld s t)
                   (fun r w' => exists old_noun current_noun question,
                      In old_noun (n0 :: ns) /\ In current_noun (c0 :: cs) /\
                      In question ["Which will last longer?"; "Which is deeper?";
                                   "Which is more lovely?";
                                   "Which is closer to the divine?";
                                   "Which is more virtuous?"] /\
                      r = Ok (Some ("Now compare the " +s+ old_noun +s+ " to the "
                                    +s+ current_noun +s+ ". " +s+ question)) /\
                      session w' = put k_boredom 0%Z s)).
    { apply wp_run in W as (r & [s' t'] & E & o & c & q & H1 & H2 & H3 & -> & Hs).
      simpl in Hs. subst s'. exists o, c, q, t'. auto. }
    do 2 wp_det. wp_pick Hc. wp_pick Ho. wp_pick Hq. apply wp_ret.
    exists x0, x, x1. auto.
Qed.

Lemma comparison_needs_boredom_and_two_nouns_witness :
  exists old_noun current_noun question t',
    In old_noun (comparable "The Forest is dark") /\
    In current_noun (_extract_nouns "the sea") /\
    In question ["Which will last longer?"; "Which is deeper?";
                 "Which is more lovely?"; "Which is closer to the divine?";
                 "Which is more virtuous?"] /\
    _command_comparison "the sea" (mkWorld weary_session [0; 0; 2])
    = (Ok (Some ("Now compare the " +s+ old_noun +s+ " to the "
                 +s+ current_noun +s+ ". " +s+ question)),
       mkWorld (put k_boredom 0%Z weary_session) t').
Proof.
  apply (proj2 (comparison_needs_boredom_and_two_nouns weary_session "the sea"
                  [0; 0; 2] 5%Z "The Forest is dark" eq_refl eq_refl));
    [lia|vm_compute; discriminate|vm_compute; discriminate].
Defined.




(** X25.  [_suggest_quote_stub] answers every text in every session: one of its
    five prefixes, a newline, and one of its five stubs between double quotes
    with an ellipsis.  It never raises and never writes to the session. *)
Theorem quote_stub_always_answers text s t :
  exists p stub t',
    In p stub_prefixes /\ In stub stubs /\
    _suggest_quote_stub text (mkWorld s t)
    = (Ok (Some (p +s+ nl +s+ dq +s+ stub +s+ "..." +s+ dq)), mkWorld s t').
Proof.
  enough (W : wp (_suggest_quote_stub text) (mkWorld s t)
                 (fun r w' => exists p stub, In p stub_prefixes /\ In stub stubs /\
                    r = Ok (Some (p +s+ nl +s+ dq +s+ stub +s+ "..." +s+ dq)) /\
                    session w' = s)).
  { apply wp_run in W as (r & [s' t'] & E & p & stub & H1 & H2 & -> & Hs).
    simpl in Hs. subst s'. exists p, stub, t'. auto. }
  unfold _suggest_quote_stub. wp_pick Hs. wp_pick Hp. apply wp_ret.
  exists x0, x. auto.
Qed.

(* ===================================================================== *)
(** ** When the fallback answers *)
(* ===================================================================== *)

(** When no banished word is hit, no challenge is served first and every
    strategy of the pool declines, the turn answers "Continue...". *)
Lemma fallback_when_all_decline s text mode t :
  str_truthy (strip text) = true ->
  first_banished (banished_of s) text = None ->
  target_set s && str_in mode ["imitation"; "mixed"] = false ->
  (forall f t0, In f (pool_of mode) ->
     fst (call f (strip text) (mkWorld (bump (strip text) s) t0)) = Ok None) ->
  fst (process_turn text mode (mkWorld s t)) = Ok "Continue..." /\
  session (snd (process_turn text mode (mkWorld s t))) = bump (strip text) s.
Proof.
  intros NB F C D. pose proof (process_turn_cases text mode s t NB) as H.
  unfold wp, turn_cases in H. rewrite first_banished_strip in H.
  destruct H as [[(x & resp & Fx & _) _]
                |[(_ & T & M & _)
                 |(_ & _ & [[H1 H2]|(f & resp & Hf & _ & (_ & _ & t0 & E))])]].
  - congruence.
  - rewrite T, M in C. discriminate.
  - auto.
  - specialize (D f t0 Hf). rewrite E in D. discriminate.
Qed.

Lemma recall_declines text s t b :
  boredom s = Some b -> (b < 5)%Z ->
  fst (_command_recall_noun text (mkWorld s t)) = Ok None /\
  fst (_command_comparison text (mkWorld s t)) = Ok None.
Proof.
  intros Hb L. apply Z.ltb_lt in L.
  unfold _command_recall_noun, _command_comparison.
  rewrite !(bind_ok (getitem k_boredom) _ (mkWorld s t) b (mkWorld s t))
    by (unfold getitem; cbn [session key_get k_boredom]; rewrite Hb; reflexivity).
  rewrite L. split; reflexivity.
Qed.

(** X26.  In the mode "backtracking", while boredom is below 4 before the turn, a
    turn on a text that is not blank and holds no banished word is answered
    "Continue..." and only recorded: the recall and the comparison wait for
    the fifth turn since boredom was last 0. *)
Theorem backtracking_waits_for_the_fifth_turn s text t :
  str_truthy (strip text) = true ->
  first_banished (banished_of s) text = None ->
  (boredom_of s < 4)%Z ->
  fst (process_turn text "backtracking" (mkWorld s t)) = Ok "Continue..." /\
  session (snd (process_turn text "backtracking" (mkWorld s t)))
  = bump (strip text) s.
Proof.
  intros NB F L. apply fallback_when_all_decline; auto.
  - rewrite andb_false_r. reflexivity.
  - intros f t0 Hf.
    destruct (recall_declines (strip text) (bump (strip text) s) t0
                (boredom_of s + 1)%Z eq_refl ltac:(lia)) as [R C].
    vm_compute in Hf. destruct Hf as [<-|[<-|[]]]; assumption.
Qed.

Lemma backtracking_waits_for_the_fifth_turn_witness :
  fst (process_turn "the sea is calm" "backtracking"
         (mkWorld (bored_session 3) [1; 0]))
  = Ok "Continue..." /\
  session (snd (process_turn "the sea is calm" "backtracking"
                  (mkWorld (bored_session 3) [1; 0])))
  = bump (strip "the sea is calm") (bored_session 3).
Proof.
  apply (backtracking_waits_for_the_fifth_turn (bored_session 3)
           "the sea is calm" [1; 0]); [reflexivity|reflexivity|].
  vm_compute. reflexivity.
Defined.

Lemma extract_nouns_strip text : _extract_nouns (strip text) = _extract_nouns text.
Proof. unfold _extract_nouns. rewrite !split_lower, split_strip. reflexivity. Qed.





(* ===================================================================== *)
(** ** When a strategy answers *)
(* ===================================================================== *)

Lemma swap_keeps_elements {A} i j (l : list A) x : In x l -> In x (swap i j l).
Proof.
  unfold swap. destruct (nth_error l i) as [a|] eqn:Ei; auto.
  destruct (nth_error l j) as [b|] eqn:Ej; auto.
  intros H. apply In_nth_error in H as [k Hk].
  assert (Li : i < length l) by (apply nth_error_Some; congruence).
  assert (Lj : j < length l) by (apply nth_error_Some; congruence).
  destruct (Nat.eq_dec k i) as [->|Di].
  - assert (x = a) by congruence. subst x.
    apply (nth_error_In _ j). apply nth_error_list_set_eq.
    rewrite length_list_set. exact Lj.
  - destruct (Nat.eq_dec k j) as [->|Dj].
    + assert (x = b) by congruence. subst x.
      apply (nth_error_In _ i). rewrite nth_error_list_set_neq by (intros ->; apply Di; reflexivity).
      apply nth_error_list_set_eq. exact Li.
    + apply (nth_error_In _ k). rewrite !nth_error_list_set_neq by assumption.
      exact Hk.
Qed.

Lemma wp_shuffle_from_all {A} i : forall (l : list A) w Q,
  (forall l' t', (forall x, In x l -> In x l') -> incl l' l ->
                 Q (Ok l') (mkWorld (session w) t')) ->
  wp (shuffle_from i l) w Q.
Proof.
  induction i as [|i IH]; intros l w Q H.
  - simpl. apply wp_ret. destruct w. apply H; [auto|apply incl_refl].
  - cbn [shuffle_from]. apply wp_bind. apply wp_randbelow. intros j t' _.
    apply IH. intros l' t'' Hall Hl'. apply H.
    + intros x Hx. apply Hall. apply swap_keeps_elements. exact Hx.
    + intros x Hx. eapply in_swap; eauto.
Qed.

(** [random.shuffle] returns the elements of the list, all of them. *)
Lemma wp_shuffle_all {A} (l : list A) w Q :
  (forall l' t', (forall x, In x l -> In x l') -> incl l' l ->
                 Q (Ok l') (mkWorld (session w) t')) ->
  wp (shuffle l) w Q.
Proof. apply wp_shuffle_from_all. Qed.

Lemma try_responses_step f fs text w :
  try_responses (f :: fs) text w
  = match call f text w with
    | (Ok r, w') => if response_truthy r then (Ok r, w')
                    else try_responses fs text w'
    | (Raise _, w') => try_responses fs text w'
    end.
Proof.
  cbn [try_responses]. unfold bind, try_except.
  destruct (call f text w) as [[r|e] w']; [destruct (response_truthy r)|];
    reflexivity.
Qed.

Lemma try_responses_answers text s (K : keys_present s = true) f :
  always_answers f text s ->
  forall fs t, In f fs ->
    wp (try_responses fs text) (mkWorld s t)
       (fun r w' => exists g resp, In g fs /\ r = Ok (Some resp) /\
                                   answered text s g resp w').
Proof.
  intros A fs. induction fs as [|g fs IH]; intros t Hf; [destruct Hf|].
  unfold wp. rewrite try_responses_step.
  destruct (call_cases g text s t K) as [(t' & E)|(resp & w' & E & An)]; rewrite E.
  - cbn [response_truthy opt_truthy]. destruct Hf as [->|Hf].
    + exfalso. destruct (A t) as (r2 & w2 & E2). rewrite E in E2. discriminate.
    + specialize (IH t' Hf). unfold wp in IH.
      destruct IH as (h & resp & Hh & Hr & An). exists h, resp.
      split; [right; exact Hh|]. auto.
  - pose proof An as (Ht & _). cbn [response_truthy opt_truthy]. rewrite Ht.
    cbn [fst snd]. exists g, resp. split; [left; reflexivity|]. auto.
Qed.

(** A turn that hits no banished word is answered by a strategy, not by the
    fallback, whenever the pool of the mode holds a strategy that answers
    whatever is drawn: the shuffle keeps every strategy of the pool, and the
    loop reaches it unless an earlier one answers. *)
Lemma turn_is_answered s text mode t f :
  str_truthy (strip text) = true ->
  In f (pool_of mode) ->
  always_answers f (strip text) (bump (strip text) s) ->
  exists g resp,
    In g (candidates mode) /\
    fst (process_turn text mode (mkWorld s t)) = Ok resp /\
    answered (strip text) (bump (strip text) s) g resp
             (snd (process_turn text mode (mkWorld s t))).
Proof.
  intros NB Hf A.
  destruct (first_banished (banished_of s) (strip text)) as [x|] eqn:F.
  - (* the warning is the answer of the banished-word check *)
    pose proof (process_turn_spec text mode s t NB) as H. unfold wp in H.
    destruct H as [[H1 H2]|(g & resp & Hg & Hr & An)].
    + exfalso. destruct (first_banished_of_absent s _ x F) as (bw & Hbw & F').
      rewrite first_banished_strip in F'.
      destruct (banished_turn s t mode text bw x Hbw F') as (resp & t' & _ & E).
      rewrite E in H1. cbn [fst] in H1. injection H1 as H1.
      unfold banished_warning in H1.
      assert (L : String.length (resp +s+ nl +s+ "I said not to sing of " +s+ x
                                 +s+ "...") = String.length "Continue...")
        by (rewrite H1; reflexivity).
      rewrite !str_length_append in L. cbn [String.length nl] in L. lia.
    + exists g, resp. auto.
  - assert (NB' : str_truthy (strip (strip text)) = true)
      by (rewrite strip_strip_truthy; exact NB).
    pose proof (analyze_text_unfold (strip text) mode s t NB' F) as E.
    unfold process_turn, analyze. rewrite NB. cbn [negb].
    destruct (target_set s && str_in mode ["imitation"; "mixed"]).
    + destruct (authorial_always (strip text) (bump (strip text) s) t eq_refl)
        as (resp & w' & Ea & An).
      rewrite Ea in E. rewrite (bind_ok _ _ _ _ _ E). pose proof An as (Ht & _).
      cbn [ret fst snd response_truthy opt_truthy]. rewrite Ht.
      exists authorial_imitation, resp. split; [right; left; reflexivity|]. auto.
    + assert (W : wp (analyze_text (strip text) mode) (mkWorld s t)
                     (fun r w' => exists g resp, In g (pool_of mode) /\
                        r = Ok (Some resp) /\
                        answered (strip text) (bump (strip text) s) g resp w')).
      { unfold wp. rewrite E. apply wp_bind, wp_shuffle_all.
        intros l' t3 Hall Hl'. cbn [session].
        eapply wp_conseq;
          [apply (try_responses_answers (strip text) (bump (strip text) s) eq_refl f A);
           apply Hall; exact Hf|].
        intros r w' (g & resp & Hg & -> & An). exists g, resp.
        split; [apply Hl'; exact Hg|]. auto. }
      unfold wp in W. unfold bind.
      destruct (analyze_text (strip text) mode (mkWorld s t)) as [r w'].
      cbn [fst snd] in W. destruct W as (g & resp & Hg & -> & An).
      pose proof An as (Ht & _). cbn [ret fst snd response_truthy opt_truthy].
      rewrite Ht. exists g, resp. split; [right; right; exact Hg|]. auto.
Qed.

Lemma imitation_offered mode :
  ~ In mode ["elaboration"; "variation"; "backtracking"] ->
  In authorial_imitation (pool_of mode).
Proof.
  intros H. unfold pool_of, mode_functions. cbn [dict_get].
  destruct (String.eqb_spec mode "elaboration") as [->|_];
    [exfalso; apply H; simpl; tauto|].
  destruct (String.eqb_spec mode "imitation") as [->|_]; [simpl; tauto|].
  destruct (String.eqb_spec mode "variation") as [->|_];
    [exfalso; apply H; simpl; tauto|].
  destruct (String.eqb_spec mode "backtracking") as [->|_];
    [exfalso; apply H; simpl; tauto|].
  destruct (String.eqb_spec mode "mixed") as [->|_]; simpl; tauto.
Qed.

(** X28.  In the modes "imitation" and "mixed" and in every mode that is not
    named, a turn on a text that is not blank never ends in the fallback for
    want of a strategy: the response is the one a strategy of the turn gave,
    because the pool holds the imitation strategy, which always answers, and
    the shuffle loses no strategy. *)
Theorem a_strategy_answers_where_imitation_is_offered s text mode t :
  str_truthy (strip text) = true ->
  ~ In mode ["elaboration"; "variation"; "backtracking"] ->
  exists g resp,
    In g (candidates mode) /\
    fst (process_turn text mode (mkWorld s t)) = Ok resp /\
    answered (strip text) (bump (strip text) s) g resp
             (snd (process_turn text mode (mkWorld s t))).
Proof.
  intros NB H.
  apply (turn_is_answered s text mode t authorial_imitation NB (imitation_offered mode H)).
  intros t0.
  destruct (authorial_always (strip text) (bump (strip text) s) t0 eq_refl)
    as (resp & w' & E & _).
  exists resp, w'. exact E.
Qed.

Lemma a_strategy_answers_where_imitation_is_offered_witness :
  exists g resp,
    In g (candidates "epic") /\
    fst (process_turn "it rains" "epic" (mkWorld empty_session [9; 9])) = Ok resp /\
    answered (strip "it rains") (bump (strip "it rains") empty_session) g resp
             (snd (process_turn "it rains" "epic" (mkWorld empty_session [9; 9]))).
Proof.
  apply (a_strategy_answers_where_imitation_is_offered empty_session "it rains"
           "epic" [9; 9]); [reflexivity|].
  simpl. intuition discriminate.
Defined.

Lemma adjectives_always text s :
  _extract_nouns text <> [] -> always_answers question_about_adjectives text s.
Proof.
  intros NE t0. cbn [call].
  enough (W : wp (_question_about_adjectives text) (mkWorld s t0)
                 (fun r _ => exists resp, r = Ok (Some resp))).
  { apply wp_run in W as (r & w' & E & resp & ->). eauto. }
  unfold _question_about_adjectives.
  destruct (_extract_nouns text) as [|n0 ns] eqn:En; [congruence|].
  cbn [list_truthy negb]. wp_pick Hn. apply wp_bind. rewrite adjectives_length.
  apply wp_sample; [rewrite adjectives_length; simpl; lia|].
  intros r t2 Hr _. destruct r as [|a0 [|a1 [|]]]; try discriminate.
  do 3 wp_det. cbn [length Nat.ltb Nat.leb]. do 4 wp_det. eauto.
Qed.

(** X29.  In the mode "elaboration" a text that names a known noun is always
    answered by a strategy, never by the fallback. *)
Theorem elaboration_answers_a_known_noun s text t :
  _extract_nouns text <> [] ->
  exists g resp,
    In g (candidates "elaboration") /\
    fst (process_turn text "elaboration" (mkWorld s t)) = Ok resp /\
    answered (strip text) (bump (strip text) s) g resp
             (snd (process_turn text "elaboration" (mkWorld s t))).
Proof.
  intros NE.
  assert (NB : str_truthy (strip text) = true).
  { rewrite strip_truthy. unfold _extract_nouns in NE. rewrite split_lower in NE.
    destruct (split text); [exfalso; apply NE; reflexivity|reflexivity]. }
  apply (turn_is_answered s text "elaboration" t question_about_adjectives NB).
  - vm_compute. tauto.
  - apply adjectives_always. rewrite extract_nouns_strip. exact NE.
Qed.

Lemma elaboration_answers_a_known_noun_witness :
  exists g resp,
    In g (candidates "elaboration") /\
    fst (process_turn "the wolf" "elaboration" (mkWorld empty_session [1; 2; 3]))
    = Ok resp /\
    answered (strip "the wolf") (bump (strip "the wolf") empty_session) g resp
             (snd (process_turn "the wolf" "elaboration"
                     (mkWorld empty_session [1; 2; 3]))).
Proof.
  apply (elaboration_answers_a_known_noun empty_session "the wolf" [1; 2; 3]).
  vm_compute. discriminate.
Defined.
